(** * lit_nlp/api/dataset.py: datasets, indexed datasets, schema-only datasets

    A shallow embedding of [Dataset], [IndexedDataset] and [NoneDataset]
    together with the properties of slicing, sampling, indexing and
    schema merging. *)

From stdpp Require Import base option list strings gmap fin_maps.
From Stdlib Require Import ZArith Lia.

Local Open Scope Z_scope.
Set Warnings "-register-all".

(** ** Exceptions and the error monad

    The only exceptions the module raises itself are the [AssertionError]
    of an [assert] and the [ValueError] of the list and random builtins. *)

Inductive Exn : Set := AssertionError | ValueError.

Inductive result (A : Type) : Type :=
| Ok (a : A)
| Raise (e : Exn).
Arguments Ok {A} a.
Arguments Raise {A} e.

#[global] Instance result_ret : MRet result := fun A a => Ok a.
#[global] Instance result_bind : MBind result := fun A B f m =>
  match m with
  | Ok a => f a
  | Raise e => Raise e
  end.

Definition py_assert (b : bool) : result unit :=
  if b then Ok tt else Raise AssertionError.

Definition returns {A : Type} (m : result A) : Prop := ∃ a, m = Ok a.

(** ** Python builtins used by the module *)

(** A [slice(start, stop, step)] object. *)
Record SliceObj : Set := Slice {
  slice_start : option Z;
  slice_stop : option Z;
  slice_step : option Z
}.

(** [a:b] *)
Definition slice_ab (a b : Z) : SliceObj := Slice (Some a) (Some b) None.

Section builtins.
Context {A : Type}.

(** Clamping of one bound of a slice against a sequence of length [len]. *)
Definition adjust_index (len step i : Z) : Z :=
  if i <? 0 then
    let i' := i + len in
    if i' <? 0 then (if step <? 0 then -1 else 0) else i'
  else if len <=? i then (if step <? 0 then len - 1 else len)
  else i.

(** Start, step and number of items selected by a slice; a zero step is a
    [ValueError]. *)
Definition slice_indices (len : Z) (s : SliceObj) : result (Z * Z * Z) :=
  let step := default 1 (slice_step s) in
  if step =? 0 then Raise ValueError
  else
    let start := match slice_start s with
                 | Some i => adjust_index len step i
                 | None => if step <? 0 then len - 1 else 0
                 end in
    let stop := match slice_stop s with
                | Some i => adjust_index len step i
                | None => if step <? 0 then -1 else len
                end in
    let n := if step <? 0
             then (if stop <? start then (start - stop - 1) / (- step) + 1 else 0)
             else (if start <? stop then (stop - start - 1) / step + 1 else 0) in
    Ok (start, step, n).

(** [l[slice_obj]] *)
Definition list_getitem (l : list A) (s : SliceObj) : result (list A) :=
  '(start, step, n) ← slice_indices (Z.of_nat (length l)) s;
  Ok (omap (λ i, l !! Z.to_nat (start + i * step)) (seqZ 0 n)).

(** [x or y] where [x] is an optional list: [None] and [[]] are falsy. *)
Definition or_list (x : option (list A)) (y : list A) : list A :=
  match x with
  | Some ((_ :: _) as l) => l
  | _ => y
  end.
End builtins.

(** [x or y] where [x] is an optional string, [y] an optional string. *)
Definition or_str (x y : option string) : option string :=
  match x with
  | Some EmptyString | None => y
  | Some s => Some s
  end.

(** [x or y] where [x] is an optional dict: [None] and [{}] are falsy. *)
Definition or_dict {V : Type} (x : option (gmap string V)) (y : gmap string V)
  : gmap string V :=
  match x with
  | Some m => if decide (size m = 0%nat) then y else m
  | None => y
  end.

(** [random.Random(seed).sample(population, k)] for [0 <= k <= len(population)]:
    the standard library promises a list of [k] elements taken from distinct
    positions of the population. *)
Class RandomSample (A : Type) : Type := {
  rng_sample : Z → list A → nat → list A;
  rng_sample_length : ∀ seed l k,
    (k ≤ length l)%nat → length (rng_sample seed l k) = k;
  rng_sample_submseteq : ∀ seed l k,
    (k ≤ length l)%nat → rng_sample seed l k ⊆+ l
}.

(** A seeded sampler meeting the contract: rotate the population by the seed
    and keep the first [k] items. *)
Definition rotate_sample {A : Type} (seed : Z) (l : list A) (k : nat) : list A :=
  take k (rotate (Z.to_nat (Z.abs seed)) l).

(** The [required] attribute of a field descriptor. *)
Class Required (LitType : Type) : Type := required : LitType → bool.

(** ** The data model *)

Section dataset.
(** [types.Input] (a record), [types.ExampleId] and the field descriptors
    of [lit_nlp.api.types] are opaque to this module: it only hashes ids,
    compares descriptors and reads their [required] attribute. *)
Context {Input ExampleId LitType : Type}.
Context `{ExampleId_countable : Countable ExampleId}.
Context `{LitType_eq : EqDecision LitType}.
Context `{LitType_required : Required LitType}.
Context `{rng : RandomSample Input}.

(** [types.Spec] *)
Abbreviation Spec := (gmap string LitType).

(** [types.IndexedInput] *)
Record IndexedInput : Type := mkIndexedInput {
  data : Input;
  id : ExampleId;
  meta : gmap string string
}.

(** What [model.spec()] returns, and a model as far as this module
    looks at it. *)
Record ModelSpec : Type := mkModelSpec {
  input : Spec;
  output : Spec
}.

Record Model : Type := mkModel {
  model_spec : ModelSpec
}.

(** The class of an instance, with the attributes only that class sets:
    the three classes of the module, and a subclass of one of them that
    overrides no method, with its own docstring if it has one (docstrings
    are not inherited). *)
Inductive Class : Type :=
| ClsDataset
| ClsIndexedDataset (id_fn : Input → ExampleId)
                    (_indexed_examples : list IndexedInput)
                    (_index : gmap ExampleId IndexedInput)
| ClsNoneDataset (_models : list (string * Model))
| ClsSubclass (doc : option string) (parent : Class).

(** The class of the module whose methods an instance of [c] runs. *)
Fixpoint module_class (c : Class) : Class :=
  match c with
  | ClsSubclass _ parent => module_class parent
  | _ => c
  end.

Inductive Dataset : Type := mkDataset {
  cls : Class;
  _spec : Spec;
  _examples : list Input;
  _description : option string;
  _base : option Dataset;
  can_load_by_path : bool
}.

(** ** NoneDataset *)

Definition has_conflicting_keys (spec0 spec1 : Spec) : bool :=
  existsb (λ kv, match spec1 !! kv.1 with
                 | Some v1 => bool_decide (v1 ≠ kv.2)
                 | None => false
                 end)
          (map_to_list spec0).

(** The required inputs of one model. *)
Definition req_inputs (model : Model) : Spec :=
  filter (λ kv, required kv.2 = true) (input (model_spec model)).

(** The loop of [NoneDataset.spec] over [self._models.items()], from the
    current value of [combined_spec]. *)
Fixpoint spec_loop (models : list (string * Model)) (combined_spec : Spec)
  : result Spec :=
  match models with
  | [] => Ok combined_spec
  | (_, model) :: rest =>
      _ ← py_assert (negb (has_conflicting_keys combined_spec (req_inputs model)));
      spec_loop rest (req_inputs model ∪ combined_spec)
  end.

Definition NoneDataset_spec (models : list (string * Model)) : result Spec :=
  spec_loop models ∅.

(** [NoneDataset(models)]: no call to the base constructor, so every other
    attribute is the class default. *)
Definition NoneDataset_init (models : list (string * Model)) : Dataset :=
  mkDataset (ClsNoneDataset models) ∅ [] None None false.

(** ** Dataset *)

Definition newline : string := String (Ascii.ascii_of_nat 10) EmptyString.

(** [inspect.getdoc(self)]: the cleaned docstring of the instance's class,
    [None] for a class without one. *)
Definition getdoc (c : Class) : option string :=
  match c with
  | ClsSubclass doc _ => doc
  | ClsDataset =>
      Some ("Base class for LIT datasets." +:+ newline +:+ newline +:+
            "We recommend pre-loading the data in the constructor, but you can also stream" +:+ newline +:+
            "on the fly in Dataset.examples() if desired.")
  | ClsIndexedDataset _ _ _ =>
      Some "Dataset with additional indexing information."
  | ClsNoneDataset _ =>
      Some "Empty dataset, with fields as the union of model specs."
  end.

(** [self.spec()], dispatched on the class. *)
Definition spec (self : Dataset) : result Spec :=
  match module_class (cls self) with
  | ClsNoneDataset models => NoneDataset_spec models
  | _ => Ok (_spec self)
  end.

(** [self.examples] *)
Definition examples (self : Dataset) : list Input := _examples self.

(** [self.description()] *)
Definition description (self : Dataset) : string :=
  default EmptyString
    (or_str (or_str (_description self) (getdoc (cls self))) (Some EmptyString)).

(** [len(self)] *)
Definition len (self : Dataset) : Z := Z.of_nat (length (examples self)).

(** [Dataset(spec, examples, description, base)]: the attributes of the base,
    or else the class defaults, each overridden by a truthy argument. *)
Definition Dataset_init
    (spec_arg : option Spec) (examples_arg : option (list Input))
    (description_arg : option string) (base : option Dataset)
  : result Dataset :=
  '(ex0, sp0, de0, clbp0) ←
    match base with
    | Some b =>
        let ex := examples b in
        sp ← spec b;
        Ok (ex, sp, Some (description b), can_load_by_path b)
    | None => Ok ([], ∅, None, false)
    end;
  Ok (mkDataset ClsDataset (or_dict spec_arg sp0) (or_list examples_arg ex0)
                (or_str description_arg de0) base clbp0).

(** [self.slice[slice_obj]] *)
Definition slice (self : Dataset) (slice_obj : SliceObj) : result Dataset :=
  ex ← list_getitem (examples self) slice_obj;
  Dataset_init None (Some ex) None (Some self).

(** [self.sample(n, seed)]; the warning of the second branch is only
    logged. *)
Definition sample (self : Dataset) (n : Z) (seed : Z) : result Dataset :=
  ex ← (if n <? Z.of_nat (length (examples self)) then
          if n <? 0 then Raise ValueError
          else Ok (rng_sample seed (examples self) (Z.to_nat n))
        else Ok (examples self));
  Dataset_init None (Some ex) None (Some self).

(** [self.shuffle(seed)] *)
Definition shuffle (self : Dataset) (seed : Z) : result Dataset :=
  sample self (len self) seed.

(** ** IndexedDataset *)

Definition index_inputs (id_fn : Input → ExampleId) (exs : list Input)
  : list IndexedInput :=
  map (λ example, mkIndexedInput example (id_fn example) ∅) exs.

(** [{ex['id']: ex for ex in indexed_examples}] *)
Definition build_index (indexed_examples : list IndexedInput)
  : gmap ExampleId IndexedInput :=
  foldl (λ m ex, <[id ex := ex]> m) ∅ indexed_examples.

(** [IndexedDataset(spec, examples, description, base, id_fn=id_fn)]: the
    base constructor runs first, then the assertion on [id_fn]. *)
Definition IndexedDataset_init
    (spec_arg : option Spec) (examples_arg : option (list Input))
    (description_arg : option string) (base : option Dataset)
    (id_fn : option (Input → ExampleId))
  : result Dataset :=
  self ← Dataset_init spec_arg examples_arg description_arg base;
  match id_fn with
  | None => Raise AssertionError
  | Some f =>
      let indexed := index_inputs f (_examples self) in
      Ok (mkDataset (ClsIndexedDataset f indexed (build_index indexed))
                    (_spec self) (_examples self) (_description self)
                    (_base self) (can_load_by_path self))
  end.

(** [self.index] and [self.indexed_examples], properties of IndexedDataset
    only; on an instance of another class, which has neither, they are given
    the empty values. *)
Definition index (self : Dataset) : gmap ExampleId IndexedInput :=
  match module_class (cls self) with
  | ClsIndexedDataset _ _ ix => ix
  | _ => ∅
  end.

Definition indexed_examples (self : Dataset) : list IndexedInput :=
  match module_class (cls self) with
  | ClsIndexedDataset _ ixs _ => ixs
  | _ => []
  end.

(** The required input fields some model of the list declares. *)
Definition declared (models : list (string * Model)) (k : string) (v : LitType)
  : Prop :=
  ∃ name model, (name, model) ∈ models ∧ req_inputs model !! k = Some v.

(** No key has two descriptors, among the combined spec and the required
    inputs of the models. *)
Definition consistent (combined : Spec) (models : list (string * Model)) : Prop :=
  ∀ k v v',
    (combined !! k = Some v ∨ declared models k v) →
    (combined !! k = Some v' ∨ declared models k v') → v = v'.

(** A class with a docstring that is not empty, and a class of the
    module itself. *)
Definition documented (c : Class) : Prop :=
  ∃ s, getdoc c = Some s ∧ s ≠ EmptyString.

Definition of_module (c : Class) : Prop :=
  match c with
  | ClsSubclass _ _ => False
  | _ => True
  end.

Definition entry (id_fn : Input → ExampleId) (r : Input) : IndexedInput :=
  mkIndexedInput r (id_fn r) ∅.

End dataset.

(** ** Paths, files and the remaining methods *)

(** [sep], the character ['/']. *)
Definition sep : Ascii.ascii := Ascii.ascii_of_nat 47.

(** [b.startswith(sep)] and [a.endswith(sep)] *)
Definition startswith_sep (b : string) : bool :=
  match b with
  | String c _ => bool_decide (c = sep)
  | EmptyString => false
  end.

Fixpoint endswith_sep (a : string) : bool :=
  match a with
  | EmptyString => false
  | String c EmptyString => bool_decide (c = sep)
  | String _ a' => endswith_sep a'
  end.

(** [os.path.join(a, b)] of [posixpath]. *)
Definition os_path_join (a b : string) : string :=
  if startswith_sep b then b
  else if bool_decide (a = EmptyString) || endswith_sep a then a +:+ b
  else a +:+ String sep b.

(** The glob pattern of [load_additional] and the file name of
    [save_additional]; [timestr] is the reading of the clock,
    [time.strftime('%Y%m%d-%H%M%S')]. *)
Definition search_path (path dataset_name : string) : string :=
  os_path_join path dataset_name +:+ "*.lit.json".

Definition new_file_path (path dataset_name timestr : string) : string :=
  os_path_join path (dataset_name +:+ "_" +:+ timestr).

Definition lit_format_path (path dataset_name timestr : string) : string :=
  new_file_path path dataset_name timestr +:+ ".lit.json".



(** [utils.remap_dict] of [lit_nlp.lib.utils], on a dict of type [D]. *)
Class RemapDict (D : Type) : Type :=
  remap_dict : D → gmap string string → D.

Section methods.
Context {Input ExampleId LitType : Type}.
Context `{ExampleId_countable : Countable ExampleId}.
Context `{LitType_eq : EqDecision LitType}.
Context `{LitType_required : Required LitType}.
Abbreviation Spec := (gmap string LitType).
Abbreviation Dataset := (Dataset (Input := Input) (ExampleId := ExampleId) (LitType := LitType)).

(** [bool(self)]: the class has [__len__] and no [__bool__], so a dataset
    without examples is falsy. *)
Definition truthy (self : Dataset) : bool := negb (len self =? 0).

(** [self.clone_with_new_path(path)]; [None] is Python's [None]. *)
Fixpoint clone_with_new_path (self : Dataset) (path : string) {struct self}
  : option Dataset :=
  match self with
  | mkDataset _ _ _ _ (Some base) _ =>
      if truthy base then clone_with_new_path base path else None
  | mkDataset _ _ _ _ None _ => None
  end.



(** [self.remap(field_map)] *)
Definition remap `{RemapDict Spec} `{RemapDict Input} (self : Dataset)
    (field_map : gmap string string) : result Dataset :=
  sp ← spec self;
  let new_spec := remap_dict sp field_map in
  let new_examples := map (λ ex, remap_dict ex field_map) (examples self) in
  Dataset_init (Some new_spec) (Some new_examples) None (Some self).

(** [IndexedDataset.index_single(dataset, id_fn)] *)
Definition index_single (dataset : Dataset) (id_fn : Input → ExampleId)
  : result Dataset :=
  IndexedDataset_init None None None (Some dataset) (Some id_fn).

(** [IndexedDataset.index_all(datasets, id_fn)], the mapping as its items
    in order. *)
Definition index_all (datasets : list (string * Dataset))
    (id_fn : Input → ExampleId) : result (list (string * Dataset)) :=
  mapM (λ item, ds ← IndexedDataset_init None None None (Some item.2) (Some id_fn);
                Ok (item.1, ds))
       datasets.

End methods.

(** ** Concrete datasets *)

(** A field descriptor reduced to its class name and [required] flag. *)
Record Field : Set := mkField {
  field_class : string;
  field_required : bool
}.

#[global] Instance Field_eq_dec : EqDecision Field.
Proof. solve_decision. Defined.

#[global] Instance Field_required : Required Field := field_required.

(** A record as its field names and values. *)
Abbreviation Rec := (list (string * string)).
Abbreviation DS := (Dataset (Input := Rec) (ExampleId := string) (LitType := Field)).

Definition rec1 : Rec := [("text", "a film"); ("label", "1")].
Definition rec2 : Rec := [("text", "a bore"); ("label", "0")].
Definition rec3 : Rec := [("text", "a gem"); ("label", "1")].

(** [Dataset(examples=exs)] *)
Definition plain (exs : list Rec) : DS :=
  mkDataset ClsDataset ∅ exs None None false.

(** [Dataset(spec, examples, description)] *)
Definition sst : DS :=
  mkDataset ClsDataset
            {[ "text" := mkField "TextSegment" true;
               "label" := mkField "CategoryLabel" false ]}
            [rec1; rec2; rec3] (Some "Sentiment of film reviews.") None false.

(** Ids: the text of a record, and one id for all records. *)
Definition text_id (r : Rec) : string :=
  match r with
  | (_, v) :: _ => v
  | [] => EmptyString
  end.

Definition same_id (r : Rec) : string := "x".

Definition unwrap (m : result DS) : DS :=
  match m with
  | Ok d => d
  | Raise _ => plain []
  end.

Definition indexed_sst : DS :=
  unwrap (IndexedDataset_init None None None (Some sst) (Some text_id)).

Definition model_text : Model :=
  mkModel (mkModelSpec {[ "text" := mkField "TextSegment" true ]} ∅).
Definition model_label : Model :=
  mkModel (mkModelSpec {[ "label" := mkField "CategoryLabel" false ]} ∅).
Definition model_tokens : Model :=
  mkModel (mkModelSpec {[ "text" := mkField "Tokens" true ]} ∅).
Definition model_optional_tokens : Model :=
  mkModel (mkModelSpec {[ "text" := mkField "Tokens" false ]} ∅).

Definition one_id_sst : DS :=
  unwrap (IndexedDataset_init None None None (Some sst) (Some same_id)).

(** A renaming of the keys of a record and of a spec, for the examples:
    a key of [field_map] becomes its value, any other key stays. *)
Definition rename (field_map : gmap string string) (k : string) : string :=
  default k (field_map !! k).

#[global] Instance Rec_remap : RemapDict Rec :=
  λ d field_map, (λ kv, (rename field_map kv.1, kv.2)) <$> d.

#[global] Instance Field_spec_remap : RemapDict (gmap string Field) :=
  λ d field_map,
    list_to_map ((λ kv, (rename field_map kv.1, kv.2)) <$> map_to_list d).

Definition sst_view : DS := unwrap (slice sst (slice_ab 1 3)).

(** [MyData(examples=[rec1])] for [class MyData(Dataset): pass], a subclass
    without docstring. *)
Definition undocumented : DS :=
  mkDataset (ClsSubclass None ClsDataset) ∅ [rec1] None None false.

Program Definition rotate_RandomSample (A : Type) : RandomSample A := {|
  rng_sample := rotate_sample
|}.
Next Obligation.
  intros A seed l k Hk. unfold rotate_sample.
  rewrite length_take, length_rotate. lia.
Qed.
Next Obligation.
  intros A seed l k _. unfold rotate_sample.
  etrans; [apply sublist_submseteq, sublist_take|].
  unfold rotate. by rewrite Permutation_app_comm, take_drop.
Qed.

(** * Properties *)

Section properties.
Context {Input ExampleId LitType : Type}.
Context `{ExampleId_countable : Countable ExampleId}.
Context `{LitType_eq : EqDecision LitType}.
Context `{LitType_required : Required LitType}.
Context `{rng : RandomSample Input}.
Abbreviation Spec := (gmap string LitType).
Abbreviation Dataset := (Dataset (Input := Input) (ExampleId := ExampleId) (LitType := LitType)).

(** ** Schema merge: facts about the loop *)

Lemma has_conflicting_keys_true (spec0 spec1 : Spec) :
  has_conflicting_keys spec0 spec1 = true ↔
  ∃ k v v1, spec0 !! k = Some v ∧ spec1 !! k = Some v1 ∧ v1 ≠ v.
Proof.
  unfold has_conflicting_keys. rewrite existsb_exists. split.
  - intros [[k v] [Hin Hc]]. simpl in Hc.
    apply list_elem_of_In, elem_of_map_to_list in Hin.
    destruct (spec1 !! k) as [v1|] eqn:E1; [|done].
    apply bool_decide_eq_true in Hc. by exists k, v, v1.
  - intros (k & v & v1 & H0 & H1 & Hne).
    exists (k, v). split.
    + by apply list_elem_of_In, elem_of_map_to_list.
    + simpl. rewrite H1. by apply bool_decide_eq_true.
Qed.

Lemma has_conflicting_keys_false (spec0 spec1 : Spec) :
  has_conflicting_keys spec0 spec1 = false ↔
  ∀ k v v1, spec0 !! k = Some v → spec1 !! k = Some v1 → v1 = v.
Proof.
  rewrite <- not_true_iff_false, has_conflicting_keys_true. split.
  - intros Hno k v v1 H0 H1.
    destruct (decide (v1 = v)) as [|Hne]; [done|].
    exfalso. apply Hno. by exists k, v, v1.
  - intros Hall (k & v & v1 & H0 & H1 & Hne). by apply Hne, (Hall k).
Qed.

Lemma req_inputs_Some (model : Model) (k : string) (v : LitType) :
  req_inputs model !! k = Some v ↔
  input (model_spec model) !! k = Some v ∧ required v = true.
Proof. unfold req_inputs. by rewrite map_lookup_filter_Some. Qed.

(** One [update] after a passed assertion keeps both sides. *)
Lemma update_lookup (combined req : Spec) (k : string) (v : LitType) :
  has_conflicting_keys combined req = false →
  (req ∪ combined) !! k = Some v ↔ req !! k = Some v ∨ combined !! k = Some v.
Proof.
  intros Hno. rewrite has_conflicting_keys_false in Hno.
  rewrite lookup_union_Some_raw. split.
  - intros [?|[_ ?]]; auto.
  - intros [?|Hc]; [by left|].
    destruct (req !! k) as [v1|] eqn:E; [|by right].
    left. f_equal. by apply (Hno k).
Qed.


Lemma declared_cons name model rest k v :
  declared ((name, model) :: rest) k v ↔
  req_inputs model !! k = Some v ∨ declared rest k v.
Proof.
  unfold declared. split.
  - intros (n & m & Hin & Hk). apply elem_of_cons in Hin as [Heq|Hin].
    + injection Heq as -> ->. by left.
    + right. by exists n, m.
  - intros [Hk|(n & m & Hin & Hk)].
    + exists name, model. split; [left|done].
    + exists n, m. split; [by right|done].
Qed.

Lemma spec_loop_Ok models : ∀ combined s,
  spec_loop models combined = Ok s →
  ∀ k v, s !! k = Some v ↔ combined !! k = Some v ∨ declared models k v.
Proof.
  induction models as [|[name model] rest IH]; intros combined s Hs k v.
  - simpl in Hs. injection Hs as <-. split; [auto|].
    intros [?|(n & m & Hin & _)]; [done|]. by apply elem_of_nil in Hin.
  - simpl in Hs.
    destruct (has_conflicting_keys combined (req_inputs model)) eqn:Hc;
      simpl in Hs; [done|].
    rewrite (IH _ _ Hs k v), (update_lookup _ _ _ _ Hc), declared_cons.
    tauto.
Qed.

Lemma spec_loop_Raise models : ∀ combined e,
  spec_loop models combined = Raise e → e = AssertionError.
Proof.
  induction models as [|[name model] rest IH]; intros combined e He.
  - done.
  - simpl in He.
    destruct (has_conflicting_keys combined (req_inputs model)); simpl in He.
    + by injection He.
    + by eapply IH.
Qed.


Lemma spec_loop_consistent models : ∀ combined s,
  spec_loop models combined = Ok s → consistent combined models.
Proof.
  intros combined s Hs k v v' Hv Hv'.
  apply (spec_loop_Ok _ _ _ Hs) in Hv, Hv'. congruence.
Qed.

Lemma spec_loop_returns models : ∀ combined,
  consistent combined models → returns (spec_loop models combined).
Proof.
  induction models as [|[name model] rest IH]; intros combined Hcons.
  - by eexists.
  - simpl.
    assert (has_conflicting_keys combined (req_inputs model) = false) as Hc.
    { apply has_conflicting_keys_false. intros k v v1 H0 H1.
      apply (Hcons k); [|by left].
      right. apply declared_cons. by left. }
    rewrite Hc. simpl. apply IH.
    intros k v v' Hv Hv'. apply (Hcons k).
    + rewrite declared_cons. rewrite (update_lookup _ _ _ _ Hc) in Hv. tauto.
    + rewrite declared_cons. rewrite (update_lookup _ _ _ _ Hc) in Hv'. tauto.
  Qed.

(** The merge returns exactly when the required inputs agree. *)
Lemma NoneDataset_spec_returns_iff (models : list (string * Model)) :
  returns (NoneDataset_spec models) ↔ consistent ∅ models.
Proof.
  unfold NoneDataset_spec. split.
  - intros [s Hs]. by eapply spec_loop_consistent.
  - apply spec_loop_returns.
Qed.

(** ** Derivation from a base *)

Lemma spec_Raise (d : Dataset) (e : Exn) :
  spec d = Raise e → e = AssertionError.
Proof.
  unfold spec. destruct (module_class (cls d)); try done.
  apply spec_loop_Raise.
Qed.

Lemma of_module_documented
    (c : Class (Input := Input) (ExampleId := ExampleId) (LitType := LitType)) :
  of_module c → documented c.
Proof. destruct c; simpl; [by eexists..|done]. Qed.

Lemma description_nonempty (d : Dataset) :
  documented (cls d) → description d ≠ EmptyString.
Proof.
  intros (doc & Hdoc & Hne). unfold description. rewrite Hdoc.
  destruct (_description d) as [[|a s]|]; simpl; try done; by destruct doc.
Qed.

(** The description of a dataset that stores the description of [d]. *)
Lemma description_derived (d' d : Dataset) :
  _description d' = Some (description d) →
  (description d ≠ EmptyString → description d' = description d) ∧
  (description d = EmptyString →
   description d' = default EmptyString (getdoc (cls d'))).
Proof.
  intros Hd.
  assert (description d' =
          default EmptyString
            (or_str (or_str (Some (description d)) (getdoc (cls d')))
                    (Some EmptyString))) as ->
    by (unfold description at 1; by rewrite Hd).
  split.
  - intros Hne. by destruct (description d).
  - intros ->. simpl. by destruct (getdoc (cls d')) as [[|a s]|].
Qed.

Lemma or_str_nonempty (s : string) (y : option string) :
  s ≠ EmptyString → or_str (Some s) y = Some s.
Proof. by destruct s. Qed.

(** The constructor with only [examples] and [base] given. *)
Lemma Dataset_init_derive (d : Dataset) (s : Spec) (ex : option (list Input)) :
  spec d = Ok s →
  Dataset_init None ex None (Some d) =
  Ok (mkDataset ClsDataset s (or_list ex (examples d))
                (Some (description d)) (Some d) (can_load_by_path d)).
Proof.
  intros Hs. unfold Dataset_init. by rewrite Hs.
Qed.

Lemma slice_Ok (d : Dataset) (s : Spec) (slice_obj : SliceObj) (ex : list Input) :
  spec d = Ok s →
  list_getitem (examples d) slice_obj = Ok ex →
  ∃ d', slice d slice_obj = Ok d' ∧
        examples d' = or_list (Some ex) (examples d) ∧ _base d' = Some d.
Proof.
  intros Hs Hex. unfold slice. rewrite Hex. simpl.
  rewrite (Dataset_init_derive _ _ _ Hs). by eexists.
Qed.

(** Where the selected records are not empty the slice holds exactly
    them. *)
Lemma slice_nonempty (d : Dataset) (s : Spec) (slice_obj : SliceObj)
    (ex : list Input) :
  spec d = Ok s →
  list_getitem (examples d) slice_obj = Ok ex →
  ex ≠ [] →
  ∃ d', slice d slice_obj = Ok d' ∧ examples d' = ex ∧ _base d' = Some d.
Proof.
  intros Hs Hex Hne.
  destruct (slice_Ok _ _ _ _ Hs Hex) as (d' & Hd' & He & Hb).
  exists d'. repeat split; try done.
  rewrite He. by destruct ex.
Qed.

(** [l[a:a]] is empty. *)
Lemma list_getitem_aa {A : Type} (l : list A) (a : Z) :
  list_getitem l (slice_ab a a) = Ok [].
Proof.
  unfold list_getitem, slice_indices. simpl.
  rewrite Z.ltb_irrefl. done.
Qed.

(** For bounds [0 <= a <= b <= len(l)] the slice [l[a:b]] is the run of
    [b - a] items from position [a]. *)
Lemma omap_lookup_run {A : Type} (l : list A) (a m : nat) :
  (a + m ≤ length l)%nat →
  omap (λ i, l !! Z.to_nat (Z.of_nat a + i * 1)) (seqZ 0 (Z.of_nat m))
  = take m (drop a l).
Proof.
  unfold seqZ. rewrite Nat2Z.id. induction m as [|m IH]; intros Hm.
  - done.
  - rewrite seq_S, fmap_app, omap_app, IH by lia. simpl.
    replace (Z.to_nat (Z.of_nat a + (Z.of_nat m + 0) * 1)) with (a + m)%nat by lia.
    destruct (lookup_lt_is_Some_2 l (a + m)) as [x Hx]; [lia|].
    rewrite Hx. simpl.
    symmetry. apply take_S_r. by rewrite lookup_drop.
Qed.

Lemma list_getitem_ab {A : Type} (l : list A) (a b : nat) :
  (a ≤ b ≤ length l)%nat →
  list_getitem l (slice_ab (Z.of_nat a) (Z.of_nat b)) = Ok (take (b - a) (drop a l)).
Proof.
  intros Hab. unfold list_getitem, slice_indices, adjust_index. simpl.
  assert ((Z.of_nat a <? 0) = false) as -> by lia.
  assert ((Z.of_nat b <? 0) = false) as -> by lia.
  destruct (Z.of_nat (length l) <=? Z.of_nat a) eqn:Ha;
    destruct (Z.of_nat (length l) <=? Z.of_nat b) eqn:Hb; simpl.
  - assert (a = length l) as -> by lia. assert (b = length l) as -> by lia.
    rewrite Z.ltb_irrefl, Nat.sub_diag. done.
  - lia.
  - assert (b = length l) as -> by lia.
    assert ((Z.of_nat a <? Z.of_nat (length l)) = true) as -> by lia.
    rewrite Z.div_1_r.
    replace (Z.of_nat (length l) - Z.of_nat a - 1 + 1) with (Z.of_nat (length l - a)) by lia.
    by rewrite omap_lookup_run by lia.
  - destruct (Z.of_nat a <? Z.of_nat b) eqn:Hlt.
    + rewrite Z.div_1_r.
      replace (Z.of_nat b - Z.of_nat a - 1 + 1) with (Z.of_nat (b - a)) by lia.
      by rewrite omap_lookup_run by lia.
    + assert (b = a) as -> by lia. by rewrite Nat.sub_diag.
Qed.

Lemma sample_Ok (d : Dataset) (s : Spec) (n seed : Z) :
  spec d = Ok s →
  0 ≤ n →
  ∃ d', sample d n seed = Ok d' ∧ _base d' = Some d ∧
        examples d' =
        or_list (Some (if n <? Z.of_nat (length (examples d))
                       then rng_sample seed (examples d) (Z.to_nat n)
                       else examples d))
                (examples d).
Proof.
  intros Hs Hn. unfold sample.
  destruct (n <? Z.of_nat (length (examples d))) eqn:Hlt.
  - assert ((n <? 0) = false) as -> by lia. simpl.
    rewrite (Dataset_init_derive _ _ _ Hs). by eexists.
  - simpl. rewrite (Dataset_init_derive _ _ _ Hs). by eexists.
Qed.

Lemma or_list_self {A : Type} (l : list A) : or_list (Some l) l = l.
Proof. by destruct l. Qed.

(** A sample of at least the size of the dataset is the dataset. *)
Lemma sample_full (d : Dataset) (s : Spec) (n seed : Z) :
  spec d = Ok s →
  len d ≤ n →
  ∃ d', sample d n seed = Ok d' ∧ examples d' = examples d ∧ _base d' = Some d.
Proof.
  intros Hs Hn. unfold len in Hn.
  destruct (sample_Ok d s n seed Hs) as (d' & Hd' & Hb & He); [lia|].
  exists d'. repeat split; try done.
  rewrite He. assert ((n <? Z.of_nat (length (examples d))) = false) as -> by lia.
  apply or_list_self.
Qed.

(** A sample of no record falls back to every record of the base. *)
Lemma sample_zero (d : Dataset) (s : Spec) (seed : Z) :
  spec d = Ok s →
  ∃ d', sample d 0 seed = Ok d' ∧ examples d' = examples d.
Proof.
  intros Hs.
  destruct (sample_Ok d s 0 seed Hs) as (d' & Hd' & Hb & He); [lia|].
  exists d'. split; [done|]. rewrite He.
  destruct (0 <? Z.of_nat (length (examples d))) eqn:Hlt.
  - pose proof (rng_sample_length seed (examples d) (Z.to_nat 0)) as Hl.
    destruct (rng_sample seed (examples d) (Z.to_nat 0)); [done|].
    simpl in Hl. lia.
  - apply or_list_self.
Qed.

(** A sample of [n > 0] records has [min n len] records, all taken from
    the dataset. *)
Lemma sample_positive (d : Dataset) (s : Spec) (n seed : Z) :
  spec d = Ok s →
  0 < n →
  ∃ d', sample d n seed = Ok d' ∧
        Z.of_nat (length (examples d')) = Z.min n (len d) ∧
        examples d' ⊆+ examples d.
Proof.
  intros Hs Hn. unfold len.
  destruct (sample_Ok d s n seed Hs) as (d' & Hd' & Hb & He); [lia|].
  exists d'. split; [done|]. rewrite He.
  destruct (n <? Z.of_nat (length (examples d))) eqn:Hlt.
  - pose proof (rng_sample_length seed (examples d) (Z.to_nat n)) as Hl.
    pose proof (rng_sample_submseteq seed (examples d) (Z.to_nat n)) as Hsub.
    destruct (rng_sample seed (examples d) (Z.to_nat n)) as [|x l] eqn:E.
    + simpl in Hl. lia.
    + simpl or_list. split; [rewrite Hl; lia | apply Hsub; lia].
  - rewrite or_list_self. split; [lia|done].
Qed.

(** ** The index of an IndexedDataset *)


Lemma build_index_snoc (id_fn : Input → ExampleId) (recs : list Input) (r : Input) :
  build_index (index_inputs id_fn (recs ++ [r])) =
  <[id_fn r := entry id_fn r]> (build_index (index_inputs id_fn recs)).
Proof.
  unfold build_index, index_inputs. by rewrite map_app, foldl_app.
Qed.

(** Every id maps to the entry of the last record that produces it. *)
Lemma build_index_lookup (id_fn : Input → ExampleId) (recs : list Input)
    (k : ExampleId) :
  build_index (index_inputs id_fn recs) !! k =
  entry id_fn <$> last (filter (λ r, id_fn r = k) recs).
Proof.
  induction recs as [|r recs IH] using rev_ind.
  - done.
  - rewrite build_index_snoc, filter_app, filter_cons, filter_nil.
    destruct (decide (id_fn r = k)) as [<-|Hne].
    + by rewrite lookup_insert_eq, last_snoc.
    + by rewrite lookup_insert_ne, app_nil_r.
Qed.

Lemma build_index_last (id_fn : Input → ExampleId) (recs : list Input)
    (j : nat) (rj : Input) :
  recs !! j = Some rj →
  (∀ j' r', (j < j')%nat → recs !! j' = Some r' → id_fn r' ≠ id_fn rj) →
  build_index (index_inputs id_fn recs) !! id_fn rj = Some (entry id_fn rj).
Proof.
  induction recs as [|r recs IH] using rev_ind; intros Hj Hlast.
  - done.
  - rewrite build_index_snoc.
    destruct (decide (j < length recs)%nat) as [Hlt|Hge].
    + rewrite lookup_app_l in Hj by done.
      rewrite lookup_insert_ne.
      * apply IH; [done|]. intros j' r' Hjj' Hr'.
        apply (Hlast j'); [done|].
        rewrite lookup_app_l; [done|]. by apply lookup_lt_Some in Hr'.
      * apply (Hlast (length recs)); [done|]. by rewrite list_lookup_middle.
    + pose proof (lookup_lt_Some _ _ _ Hj) as Hb.
      rewrite length_app in Hb. simpl in Hb.
      assert (j = length recs) as -> by lia.
      rewrite list_lookup_middle in Hj by done.
      injection Hj as ->. by rewrite lookup_insert_eq.
Qed.

Lemma build_index_size (id_fn : Input → ExampleId) (recs : list Input) :
  NoDup (id_fn <$> recs) →
  size (build_index (index_inputs id_fn recs)) = length recs.
Proof.
  induction recs as [|r recs IH] using rev_ind; intros Hnd.
  - done.
  - rewrite fmap_app in Hnd. apply NoDup_app in Hnd as (Hnd & Hnot & _).
    rewrite build_index_snoc, map_size_insert_None.
    + rewrite IH by done. rewrite length_app. simpl. lia.
    + rewrite build_index_lookup.
      destruct (last _) as [r'|] eqn:E; [|done].
      exfalso. apply last_Some_elem_of, list_elem_of_filter in E as [Hid Hin].
      apply (Hnot (id_fn r)); [|simpl; left].
      rewrite <- Hid. by apply list_elem_of_fmap_2.
Qed.

Lemma IndexedDataset_init_Ok sp ex de base (id_fn : Input → ExampleId) ds :
  IndexedDataset_init sp ex de base (Some id_fn) = Ok ds →
  index ds = build_index (index_inputs id_fn (examples ds)) ∧
  indexed_examples ds = index_inputs id_fn (examples ds).
Proof.
  unfold IndexedDataset_init.
  destruct (Dataset_init sp ex de base) as [self|e]; simpl; [|done].
  by intros [= <-].
Qed.

(** ** Properties of the derivations *)

(** C3. Shuffle is a permutation: whenever the schema of [d] can be read,
    [d.shuffle(seed)] returns a dataset whose records are a permutation of
    the records of [d] (the same multiset), and the dataset it keeps as its
    base is [d], with its records in their order. *)
Theorem shuffle_permutation (d : Dataset) (s : Spec) (seed : Z) :
  spec d = Ok s →
  ∃ d', shuffle d seed = Ok d' ∧
        examples d' ≡ₚ examples d ∧
        _base d' = Some d.
Proof.
  intros Hs. unfold shuffle.
  destruct (sample_full d s (len d) seed Hs) as (d' & Hd' & He & Hb); [lia|].
  exists d'. by rewrite He.
Qed.

(** X26. Derivation preserves unspecified fields, but for an empty
    description: for a dataset [d] whose schema can be read, the dataset
    built with [base = d] and only the records given has the schema of [d];
    it has the description of [d] when that is not empty, as it is for
    every instance of the three classes of the module, and the docstring
    of [Dataset] when the description of [d] is empty. *)
Theorem derive_preserves_fields (d : Dataset) (s : Spec) (recs : list Input) :
  spec d = Ok s →
  ∃ d2, Dataset_init None (Some recs) None (Some d) = Ok d2 ∧
        spec d2 = spec d ∧
        (description d ≠ EmptyString → description d2 = description d) ∧
        (of_module (cls d) → description d2 = description d) ∧
        (description d = EmptyString → Some (description d2) = getdoc (cls d2)).
Proof.
  intros Hs. rewrite (Dataset_init_derive _ _ _ Hs).
  eexists. split; [done|]. split; [by rewrite Hs|].
  match goal with
  | |- context [description ?d2 = description d] =>
      destruct (description_derived d2 d eq_refl) as [Hkeep Hdoc]
  end.
  split; [done|]. split.
  - intros Hc. by apply Hkeep, description_nonempty, of_module_documented.
  - intros He. by rewrite (Hdoc He).
Qed.

(** C8. IndexedDataset construction precondition: without an identity
    function the constructor raises the assertion error, whatever the other
    arguments; with one it returns, for every base whose schema can be
    read. *)
Theorem IndexedDataset_init_id_fn
    (sp : option Spec) (ex : option (list Input)) (de : option string)
    (base : option Dataset) :
  IndexedDataset_init sp ex de base None = Raise AssertionError ∧
  ∀ id_fn : Input → ExampleId,
    (∀ b, base = Some b → returns (spec b)) →
    returns (IndexedDataset_init sp ex de base (Some id_fn)).
Proof.
  unfold IndexedDataset_init, Dataset_init. split.
  - destruct base as [b|]; simpl; [|done].
    destruct (spec b) as [sb|e] eqn:Hb; simpl; [done|].
    by rewrite (spec_Raise _ _ Hb).
  - intros id_fn Hbase. destruct base as [b|]; simpl.
    + destruct (Hbase b eq_refl) as [sb ->]. simpl. by eexists.
    + by eexists.
Qed.

(** C9. An empty override falls back to the base: for a dataset [d] whose
    schema can be read, the dataset built with [base = d] and an empty list
    of records has all the records of [d], and so has [d.slice[...]] for
    every slice that selects no record, [a:a] among them. *)
Theorem empty_override_falls_back (d : Dataset) (s : Spec) :
  spec d = Ok s →
  (∃ d', Dataset_init None (Some []) None (Some d) = Ok d' ∧
         examples d' = examples d) ∧
  (∀ slice_obj, list_getitem (examples d) slice_obj = Ok [] →
     ∃ d', slice d slice_obj = Ok d' ∧ examples d' = examples d) ∧
  (∀ a, ∃ d', slice d (slice_ab a a) = Ok d' ∧ examples d' = examples d).
Proof.
  intros Hs.
  assert (∀ slice_obj, list_getitem (examples d) slice_obj = Ok [] →
     ∃ d', slice d slice_obj = Ok d' ∧ examples d' = examples d) as Hempty.
  { intros slice_obj Hex.
    destruct (slice_Ok _ _ _ _ Hs Hex) as (d' & Hd' & He & _). by exists d'. }
  split; [|split].
  - rewrite (Dataset_init_derive _ _ _ Hs). by eexists.
  - done.
  - intros a. apply Hempty, list_getitem_aa.
Qed.

(** C10. A sample of at least the size of the dataset keeps the order:
    for a dataset [d] whose schema can be read and [n >= len(d.examples)],
    the examples of [d.sample(n, seed)] are the examples of [d], one for
    one, and so are those of [d.shuffle(seed)]. *)
Theorem oversized_sample_keeps_order (d : Dataset) (s : Spec) (seed : Z) :
  spec d = Ok s →
  (∀ n, len d ≤ n →
     ∃ d', sample d n seed = Ok d' ∧ examples d' = examples d) ∧
  (∃ d', shuffle d seed = Ok d' ∧ examples d' = examples d).
Proof.
  intros Hs. split.
  - intros n Hn.
    destruct (sample_full d s n seed Hs Hn) as (d' & Hd' & He & _). by exists d'.
  - unfold shuffle.
    destruct (sample_full d s (len d) seed Hs) as (d' & Hd' & He & _); [lia|].
    by exists d'.
Qed.

(** C4, amended. Index construction: the index of an IndexedDataset maps
    every id to the entry of the last record producing it; when the ids of
    the records at distinct positions are distinct, the index has as many
    entries as there are records and maps the id of each record to that
    record; and when the records at positions [i < j] have the same id and
    no record after [j] has it, the id maps to the record at [j]. *)
Theorem index_last_wins
    (sp : option Spec) (ex : option (list Input)) (de : option string)
    (base : option Dataset) (id_fn : Input → ExampleId) (ds : Dataset) :
  IndexedDataset_init sp ex de base (Some id_fn) = Ok ds →
  (∀ k, index ds !! k =
        entry id_fn <$> last (filter (λ r, id_fn r = k) (examples ds))) ∧
  (NoDup (id_fn <$> examples ds) →
     size (index ds) = length (examples ds) ∧
     ∀ i ri, examples ds !! i = Some ri →
             index ds !! id_fn ri = Some (entry id_fn ri)) ∧
  (∀ i j ri rj,
     examples ds !! i = Some ri → examples ds !! j = Some rj →
     (i < j)%nat → id_fn ri = id_fn rj →
     (∀ j' r', (j < j')%nat → examples ds !! j' = Some r' →
               id_fn r' ≠ id_fn rj) →
     index ds !! id_fn ri = Some (entry id_fn rj)).
Proof.
  intros Hds. destruct (IndexedDataset_init_Ok _ _ _ _ _ _ Hds) as [-> _].
  split; [|split].
  - intros k. apply build_index_lookup.
  - intros Hnd. split; [by apply build_index_size|].
    intros i ri Hi. apply (build_index_last _ _ i); [done|].
    intros j' r' Hlt Hj' Heq.
    assert ((id_fn <$> examples ds) !! i = Some (id_fn ri)) as Hi'
      by by rewrite list_lookup_fmap, Hi.
    assert ((id_fn <$> examples ds) !! j' = Some (id_fn ri)) as Hj''
      by (rewrite list_lookup_fmap, Hj'; simpl; by rewrite Heq).
    pose proof (NoDup_lookup _ _ _ _ Hnd Hi' Hj''). lia.
  - intros i j ri rj Hi Hj Hlt Heq Hlast. rewrite Heq.
    by apply (build_index_last _ _ j).
Qed.

(** C5, amended. Schema merge conflict detection: when two producers
    declare the same name among their required input fields with differing
    descriptors, the schema of the schema-only dataset raises the assertion
    error. *)
Theorem spec_conflict_fails (models : list (string * Model))
    (name1 name2 : string) (model1 model2 : Model) (k : string)
    (v1 v2 : LitType) :
  (name1, model1) ∈ models → (name2, model2) ∈ models →
  input (model_spec model1) !! k = Some v1 → required v1 = true →
  input (model_spec model2) !! k = Some v2 → required v2 = true →
  v1 ≠ v2 →
  spec (NoneDataset_init (Input := Input) (ExampleId := ExampleId) models) = Raise AssertionError.
Proof.
  intros Hin1 Hin2 Hk1 Hr1 Hk2 Hr2 Hne.
  change (spec (NoneDataset_init (Input := Input) (ExampleId := ExampleId) models)) with (spec_loop models ∅).
  destruct (spec_loop models ∅) as [s|e] eqn:Hs.
  - exfalso. apply Hne.
    apply (spec_loop_consistent _ _ _ Hs k); right.
    + exists name1, model1. by rewrite req_inputs_Some.
    + exists name2, model2. by rewrite req_inputs_Some.
  - by rewrite (spec_loop_Raise _ _ _ Hs).
Qed.

(** C6. Schema merge result: when no two producers give one field name
    two descriptors, the schema of the schema-only dataset is returned and
    holds exactly the required input fields of the producers, each with the
    descriptor of its producer. *)
Theorem spec_union_of_required (models : list (string * Model)) :
  (∀ name1 model1 name2 model2 k v1 v2,
     (name1, model1) ∈ models → (name2, model2) ∈ models →
     input (model_spec model1) !! k = Some v1 →
     input (model_spec model2) !! k = Some v2 → v1 = v2) →
  ∃ s, spec (NoneDataset_init (Input := Input) (ExampleId := ExampleId) models) = Ok s ∧
       ∀ k v, s !! k = Some v ↔
              ∃ name model, (name, model) ∈ models ∧
                input (model_spec model) !! k = Some v ∧ required v = true.
Proof.
  intros Hcompat.
  change (spec (NoneDataset_init (Input := Input) (ExampleId := ExampleId) models)) with (spec_loop models ∅).
  destruct (spec_loop_returns models ∅) as [s Hs].
  - intros k v v' [Hv|(n1 & m1 & Hin1 & Hk1)] [Hv'|(n2 & m2 & Hin2 & Hk2)];
      try done.
    apply req_inputs_Some in Hk1 as [Hk1 _], Hk2 as [Hk2 _].
    by apply (Hcompat n1 m1 n2 m2 k).
  - exists s. split; [done|]. intros k v.
    rewrite (spec_loop_Ok _ _ _ Hs k v), lookup_empty. unfold declared.
    setoid_rewrite req_inputs_Some. split.
    + intros [?|(n & m & ? & ? & ?)]; [done|]. by exists n, m.
    + intros (n & m & ? & ? & ?). right. by exists n, m.
Qed.

End properties.

Example plain_is_constructed (exs : list Rec) :
  Dataset_init None (Some exs) None None = Ok (plain exs).
Proof. by destruct exs. Qed.

Example getitem_negative_step :
  list_getitem [1; 2; 3; 4; 5] (Slice None None (Some (-2))) = Ok [5; 3; 1].
Proof. reflexivity. Qed.

Example getitem_clamped :
  list_getitem [1; 2; 3; 4; 5] (Slice (Some (-3)) (Some 100) None) = Ok [3; 4; 5].
Proof. reflexivity. Qed.

Example getitem_zero_step :
  list_getitem [1; 2; 3] (Slice None None (Some 0)) = Raise ValueError.
Proof. reflexivity. Qed.

(** The end-to-end example of the schema merge. *)
Example schema_end_to_end :
  spec (NoneDataset_init (Input := Rec) (ExampleId := string)
         [("A", model_text); ("B", model_label)]) =
  Ok {[ "text" := mkField "TextSegment" true ]}.
Proof. vm_compute. reflexivity. Qed.

(** C1. Slice correctness, at an empty slice of a dataset of two records:
    [d.examples[0:0]] is empty, yet [d.slice[0:0]] returns a dataset, with
    base [d], that holds both records of [d]. *)
Theorem slice_empty_holds_all :
  list_getitem (examples (plain [rec1; rec2])) (slice_ab 0 0) = Ok [] ∧
  ∃ d', slice (plain [rec1; rec2]) (slice_ab 0 0) = Ok d' ∧
        _base d' = Some (plain [rec1; rec2]) ∧
        examples d' = [rec1; rec2].
Proof. split; [reflexivity|]. eexists. repeat split. Qed.

(** C2. Sample bounds, at [n = 0] on a dataset of one record: for every
    generator and seed [d.sample(0, seed)] holds one record, not
    [min(0, 1) = 0]. *)
Theorem sample_zero_holds_all (rng : RandomSample Rec) (seed : Z) :
  ∃ d', sample (plain [rec1]) 0 seed = Ok d' ∧
        examples d' = [rec1] ∧
        Z.of_nat (length (examples d')) ≠ Z.min 0 (len (plain [rec1])).
Proof.
  destruct (sample_zero (plain [rec1]) ∅ seed eq_refl)
    as (d' & Hd' & He).
  exists d'. rewrite He. repeat split; done.
Qed.

Lemma shuffle_permutation_witness :
  spec sst = Ok (_spec sst) ∧
  ∃ d', shuffle (rng := rotate_RandomSample Rec) sst 42 = Ok d' ∧
        examples d' ≡ₚ examples sst ∧ _base d' = Some sst.
Proof.
  split; [reflexivity|].
  apply (shuffle_permutation (rng := rotate_RandomSample Rec) sst (_spec sst) 42).
  reflexivity.
Defined.

(** C7. Derivation preserves unspecified fields, at an instance of a
    subclass without docstring and without description: the description of
    the instance is empty, and the dataset derived from it with only the
    records given has the schema of the instance but the docstring of
    [Dataset] for its description. *)
Theorem derive_empty_description :
  description undocumented = EmptyString ∧
  ∃ d2, Dataset_init None (Some [rec2]) None (Some undocumented) = Ok d2 ∧
        spec d2 = spec undocumented ∧
        Some (description d2) = getdoc (cls d2) ∧
        description d2 ≠ description undocumented.
Proof.
  split; [reflexivity|]. eexists. split; [reflexivity|].
  split; [reflexivity|]. split; [reflexivity|]. discriminate.
Qed.

Lemma derive_preserves_fields_witness :
  spec indexed_sst = Ok (_spec sst) ∧
  description indexed_sst ≠ EmptyString ∧
  ∃ d2, Dataset_init None (Some [rec3]) None (Some indexed_sst)
        = Ok d2 ∧
        spec d2 = spec indexed_sst ∧
        description d2 = description indexed_sst.
Proof.
  assert (description indexed_sst ≠ EmptyString) as Hne by discriminate.
  split; [reflexivity|]. split; [exact Hne|].
  destruct (derive_preserves_fields indexed_sst (_spec sst) [rec3] eq_refl)
    as (d2 & Hd2 & Hspec & Hkeep & _).
  exists d2. split; [exact Hd2|]. split; [exact Hspec | exact (Hkeep Hne)].
Defined.

Lemma IndexedDataset_init_id_fn_witness :
  (∀ b, Some sst = Some b → returns (spec b)) ∧
  IndexedDataset_init None None None (Some sst) None
  = Raise AssertionError ∧
  returns (IndexedDataset_init None None None (Some sst)
             (Some text_id)).
Proof.
  assert (∀ b, Some sst = Some b → returns (spec b)) as Hb.
  { intros b [= <-]. by eexists. }
  split; [exact Hb|].
  destruct (IndexedDataset_init_id_fn None None None (Some sst))
    as [Hnone Hsome].
  split; [exact Hnone | exact (Hsome text_id Hb)].
Defined.

Lemma empty_override_falls_back_witness :
  spec sst = Ok (_spec sst) ∧
  (∃ d', Dataset_init None (Some []) None (Some sst) = Ok d' ∧
         examples d' = examples sst) ∧
  (∃ d', slice sst (slice_ab 2 2) = Ok d' ∧
         examples d' = examples sst).
Proof.
  split; [reflexivity|].
  destruct (empty_override_falls_back sst (_spec sst) eq_refl)
    as (Hinit & _ & Haa).
  split; [exact Hinit | exact (Haa 2)].
Defined.

Lemma oversized_sample_keeps_order_witness :
  spec sst = Ok (_spec sst) ∧
  len sst ≤ 3 ∧
  (∃ d', sample (rng := rotate_RandomSample Rec) sst 3 7 = Ok d' ∧
         examples d' = examples sst) ∧
  (∃ d', shuffle (rng := rotate_RandomSample Rec) sst 7 = Ok d' ∧
         examples d' = examples sst).
Proof.
  split; [reflexivity|].
  assert (len sst ≤ 3) as Hlen by (vm_compute; discriminate).
  split; [exact Hlen|].
  destruct (oversized_sample_keeps_order (rng := rotate_RandomSample Rec) sst (_spec sst) 7 eq_refl) as [Hsample Hshuffle].
  split; [exact (Hsample 3 Hlen) | exact Hshuffle].
Defined.

(** C4, as stated, fails: with three records of one id the id maps to the
    third record, not to the second; and with one record listed twice, on
    which every identity function is injective, the index has one entry for
    two records. *)
Lemma index_later_wins_counterexample :
  (∃ ds : DS,
     IndexedDataset_init None (Some [rec1; rec2; rec3]) None None
       (Some same_id) = Ok ds ∧
     examples ds !! 0%nat = Some rec1 ∧ examples ds !! 1%nat = Some rec2 ∧
     rec1 ≠ rec2 ∧ same_id rec1 = same_id rec2 ∧
     data <$> index ds !! same_id rec1 = Some rec3 ∧
     ¬ (data <$> index ds !! same_id rec1 = Some rec2)) ∧
  (∃ ds : DS,
     IndexedDataset_init None (Some [rec1; rec1]) None None
       (Some text_id) = Ok ds ∧
     (∀ x y, x ∈ examples ds → y ∈ examples ds → text_id x = text_id y → x = y) ∧
     length (examples ds) = 2%nat ∧
     size (index ds) = 1%nat).
Proof.
  split.
  - eexists. split; [reflexivity|].
    repeat split; try done; vm_compute; congruence.
  - eexists. split; [reflexivity|]. split; [|split; reflexivity].
    intros x y Hx Hy _. simpl in Hx, Hy.
    apply elem_of_cons in Hx as [->|Hx], Hy as [->|Hy]; try done;
      repeat match goal with
             | H : _ ∈ [rec1] |- _ => apply list_elem_of_singleton in H as ->
             end; done.
Qed.

Lemma index_last_wins_witness :
  (IndexedDataset_init None None None (Some sst) (Some text_id)
   = Ok indexed_sst ∧
   NoDup (text_id <$> examples indexed_sst) ∧
   size (index indexed_sst) = length (examples indexed_sst) ∧
   index indexed_sst !! text_id rec2 = Some (entry text_id rec2)) ∧
  (IndexedDataset_init None None None (Some sst) (Some same_id)
   = Ok one_id_sst ∧
   examples one_id_sst !! 0%nat = Some rec1 ∧
   examples one_id_sst !! 2%nat = Some rec3 ∧
   index one_id_sst !! same_id rec1 = Some (entry same_id rec3)).
Proof.
  assert (NoDup (text_id <$> examples indexed_sst)) as Hnd.
  { vm_compute. repeat constructor; rewrite ?list_elem_of_In; simpl;
      intuition discriminate. }
  split.
  - split; [reflexivity|]. split; [exact Hnd|].
    destruct (index_last_wins None None None (Some sst) text_id
                indexed_sst eq_refl) as (_ & Hinj & _).
    destruct (Hinj Hnd) as [Hsize Hlookup].
    split; [exact Hsize | exact (Hlookup 1%nat rec2 eq_refl)].
  - split; [reflexivity|]. split; [reflexivity|]. split; [reflexivity|].
    destruct (index_last_wins None None None (Some sst) same_id
                one_id_sst eq_refl) as (_ & _ & Hlast).
    apply (Hlast 0%nat 2%nat rec1 rec3); try reflexivity; [lia|].
    intros j' r' Hlt Hj'. apply lookup_lt_Some in Hj'.
    change (length (examples one_id_sst)) with 3%nat in Hj'. lia.
Defined.

(** C5, as stated, fails: two producers give the field [text] two
    descriptors, one of them not required, and the schema is returned. *)
Lemma spec_conflict_counterexample :
  input (model_spec model_text) !! "text" = Some (mkField "TextSegment" true) ∧
  input (model_spec model_optional_tokens) !! "text"
  = Some (mkField "Tokens" false) ∧
  mkField "TextSegment" true ≠ mkField "Tokens" false ∧
  spec
       (NoneDataset_init (Input := Rec) (ExampleId := string)
          [("A", model_text); ("B", model_optional_tokens)])
  = Ok {[ "text" := mkField "TextSegment" true ]}.
Proof. repeat split; try done; vm_compute; reflexivity. Qed.

Lemma spec_conflict_fails_witness :
  ("A", model_text) ∈ [("A", model_text); ("C", model_tokens)] ∧
  ("C", model_tokens) ∈ [("A", model_text); ("C", model_tokens)] ∧
  input (model_spec model_text) !! "text" = Some (mkField "TextSegment" true) ∧
  input (model_spec model_tokens) !! "text" = Some (mkField "Tokens" true) ∧
  mkField "TextSegment" true ≠ mkField "Tokens" true ∧
  spec
       (NoneDataset_init (Input := Rec) (ExampleId := string)
          [("A", model_text); ("C", model_tokens)])
  = Raise AssertionError.
Proof.
  assert (("A", model_text) ∈ [("A", model_text); ("C", model_tokens)]) as H1
    by (apply list_elem_of_here).
  assert (("C", model_tokens) ∈ [("A", model_text); ("C", model_tokens)]) as H2
    by (apply list_elem_of_further, list_elem_of_here).
  assert (mkField "TextSegment" true ≠ mkField "Tokens" true) as Hne
    by discriminate.
  split; [exact H1|]. split; [exact H2|].
  split; [reflexivity|]. split; [reflexivity|]. split; [exact Hne|].
  apply (spec_conflict_fails (Input := Rec) (ExampleId := string)
           [("A", model_text); ("C", model_tokens)] "A" "C" model_text model_tokens "text" (mkField "TextSegment" true) (mkField "Tokens" true) H1 H2); [reflexivity|reflexivity|reflexivity|reflexivity|exact Hne].
Defined.

Lemma two_models_inv {T : Type} (a b x : T) :
  x ∈ [a; b] → x = a ∨ x = b.
Proof.
  intros Hin. apply elem_of_cons in Hin as [->|Hin]; [by left|].
  apply elem_of_cons in Hin as [->|Hin]; [by right|].
  by apply elem_of_nil in Hin.
Qed.

Lemma spec_union_of_required_witness :
  ∃ s, spec
         (NoneDataset_init (Input := Rec) (ExampleId := string)
            [("A", model_text); ("B", model_label)]) = Ok s ∧
       s !! "text" = Some (mkField "TextSegment" true) ∧
       s !! "label" = None.
Proof.
  destruct (spec_union_of_required (Input := Rec) (ExampleId := string) [("A", model_text); ("B", model_label)])
    as (s & Hs & Hiff).
  - intros n1 m1 n2 m2 k v1 v2 Hin1 Hin2 Hk1 Hk2.
    apply two_models_inv in Hin1 as [[= -> ->]|[= -> ->]];
    apply two_models_inv in Hin2 as [[= -> ->]|[= -> ->]];
      unfold model_text, model_label in Hk1, Hk2; simpl in Hk1, Hk2;
      apply lookup_singleton_Some in Hk1 as [<- <-];
      apply lookup_singleton_Some in Hk2 as [Hk <-]; try reflexivity; discriminate Hk.
  - exists s. split; [exact Hs|]. split.
    + apply Hiff. exists "A", model_text.
      split; [apply list_elem_of_here|]. split; reflexivity.
    + destruct (s !! "label") as [v|] eqn:E; [|reflexivity].
      apply Hiff in E as (n & m & Hin & Hk & Hreq).
      apply two_models_inv in Hin as [[= -> ->]|[= -> ->]];
        unfold model_text, model_label in Hk; simpl in Hk;
        apply lookup_singleton_Some in Hk as [Hk <-]; discriminate.
Defined.

(** * Further properties of the module *)

Section more_schema.
Context {Input ExampleId LitType : Type}.
Context `{ExampleId_countable : Countable ExampleId}.
Context `{LitType_eq : EqDecision LitType}.
Context `{LitType_required : Required LitType}.
Abbreviation Spec := (gmap string LitType).
Abbreviation Dataset := (Dataset (Input := Input) (ExampleId := ExampleId) (LitType := LitType)).

(** X1. [has_conflicting_keys] is true exactly when some key of both specs
    has two different descriptors. *)
Theorem has_conflicting_keys_iff (spec0 spec1 : Spec) :
  has_conflicting_keys spec0 spec1 = true ↔
  ∃ k v0 v1, spec0 !! k = Some v0 ∧ spec1 !! k = Some v1 ∧ v0 ≠ v1.
Proof.
  rewrite has_conflicting_keys_true. split.
  - intros (k & v & v1 & H0 & H1 & Hne). by exists k, v, v1.
  - intros (k & v0 & v1 & H0 & H1 & Hne). by exists k, v0, v1.
Qed.

(** X2. The order of the arguments of [has_conflicting_keys] does not
    matter, and a spec never conflicts with itself. *)
Theorem has_conflicting_keys_sym (spec0 spec1 : Spec) :
  has_conflicting_keys spec0 spec1 = has_conflicting_keys spec1 spec0 ∧
  has_conflicting_keys spec0 spec0 = false.
Proof.
  split.
  - destruct (has_conflicting_keys spec1 spec0) eqn:E.
    + apply has_conflicting_keys_true in E as (k & v & v1 & H0 & H1 & Hne).
      apply has_conflicting_keys_true. by exists k, v1, v.
    + rewrite has_conflicting_keys_false in E.
      apply has_conflicting_keys_false. intros k v v1 H0 H1.
      symmetry. by apply (E k).
  - apply has_conflicting_keys_false. intros k v v1 H0 H1. congruence.
Qed.

Lemma declared_ext (l l' : list (string * Model)) (k : string) (v : LitType) :
  (∀ x, x ∈ l → x ∈ l') → declared l k v → declared l' k v.
Proof. intros Hsub (n & m & Hin & Hk). exists n, m. split; [by apply Hsub|done]. Qed.

Lemma consistent_ext (c : Spec) (l l' : list (string * Model)) :
  (∀ x, x ∈ l' → x ∈ l) → consistent c l → consistent c l'.
Proof.
  intros Hsub Hc k v v' Hv Hv'. apply (Hc k).
  - destruct Hv as [?|Hv]; [by left|]. right. by eapply declared_ext.
  - destruct Hv' as [?|Hv']; [by left|]. right. by eapply declared_ext.
Qed.

(** X3. The merged schema depends on the set of producers only: two
    mappings with the same items, in any order and with any repetition,
    give the same schema or both fail. *)
Theorem NoneDataset_spec_same_members (models models' : list (string * Model)) :
  (∀ x, x ∈ models ↔ x ∈ models') →
  NoneDataset_spec models = NoneDataset_spec models'.
Proof.
  intros Hmem. unfold NoneDataset_spec.
  destruct (spec_loop models ∅) as [s|e] eqn:E;
    destruct (spec_loop models' ∅) as [s'|e'] eqn:E'.
  - f_equal. apply map_eq. intros k. apply option_eq. intros v.
    rewrite (spec_loop_Ok _ _ _ E k v), (spec_loop_Ok _ _ _ E' k v).
    split; (intros [?|Hd]; [by left|right]).
    + apply (declared_ext models models'); [intros x; apply Hmem|done].
    + apply (declared_ext models' models); [intros x; apply Hmem|done].
  - exfalso. apply spec_loop_consistent in E.
    destruct (spec_loop_returns models' ∅) as [s2 Hs2].
    + apply (consistent_ext _ models models'); [intros x; apply Hmem|done].
    + congruence.
  - exfalso. apply spec_loop_consistent in E'.
    destruct (spec_loop_returns models ∅) as [s2 Hs2].
    + apply (consistent_ext _ models' models); [intros x; apply Hmem|done].
    + congruence.
  - by rewrite (spec_loop_Raise _ _ _ E), (spec_loop_Raise _ _ _ E').
Qed.

Lemma spec_loop_Raise_conflict models : ∀ combined e,
  spec_loop models combined = Raise e →
  ∃ k v v', (combined !! k = Some v ∨ declared models k v) ∧
            declared models k v' ∧ v ≠ v'.
Proof.
  induction models as [|[name model] rest IH]; intros combined e He.
  - done.
  - simpl in He.
    destruct (has_conflicting_keys combined (req_inputs model)) eqn:Hc;
      simpl in He.
    + apply has_conflicting_keys_true in Hc as (k & v & v1 & H0 & H1 & Hne).
      exists k, v, v1. split; [by left|]. split; [|done].
      apply declared_cons. by left.
    + destruct (IH _ _ He) as (k & v & v' & Hv & Hv' & Hne).
      exists k, v, v'. rewrite !declared_cons.
      rewrite (update_lookup _ _ _ _ Hc) in Hv.
      split; [tauto|]. split; [by right|done].
Qed.

(** X4. The schema of a schema-only dataset fails exactly when two
    producers give one name, among their required inputs, two different
    descriptors; the failure is the assertion error. *)
Theorem NoneDataset_spec_fails_iff (models : list (string * Model)) :
  (NoneDataset_spec models = Raise AssertionError ↔
   ∃ name1 model1 name2 model2 k v1 v2,
     (name1, model1) ∈ models ∧ (name2, model2) ∈ models ∧
     input (model_spec model1) !! k = Some v1 ∧ required v1 = true ∧
     input (model_spec model2) !! k = Some v2 ∧ required v2 = true ∧
     v1 ≠ v2) ∧
  (¬ returns (NoneDataset_spec models) →
   NoneDataset_spec models = Raise AssertionError).
Proof.
  unfold NoneDataset_spec. split; [split|].
  - intros He.
    destruct (spec_loop_Raise_conflict _ _ _ He)
      as (k & v & v' & [Hv|Hv] & Hv' & Hne); [done|].
    destruct Hv as (n1 & m1 & Hin1 & Hk1), Hv' as (n2 & m2 & Hin2 & Hk2).
    apply req_inputs_Some in Hk1 as [Hk1 Hr1], Hk2 as [Hk2 Hr2].
    by exists n1, m1, n2, m2, k, v, v'.
  - intros (n1 & m1 & n2 & m2 & k & v1 & v2 & Hin1 & Hin2 & Hk1 & Hr1 & Hk2 & Hr2 & Hne).
    destruct (spec_loop models ∅) as [s|e] eqn:Hs.
    + exfalso. apply Hne.
      apply (spec_loop_consistent _ _ _ Hs k); right.
      * exists n1, m1. by rewrite req_inputs_Some.
      * exists n2, m2. by rewrite req_inputs_Some.
    + by rewrite (spec_loop_Raise _ _ _ Hs).
  - intros Hnot. destruct (spec_loop models ∅) as [s|e] eqn:Hs.
    + exfalso. apply Hnot. by exists s.
    + by rewrite (spec_loop_Raise _ _ _ Hs).
Qed.

(** X5. Whenever the schema of a schema-only dataset is returned, also
    when producers disagree on fields that are not required, it maps a name
    to a descriptor exactly when some producer has that name with that
    descriptor and the descriptor is required. *)
Theorem NoneDataset_spec_content (models : list (string * Model)) (s : Spec) :
  spec (NoneDataset_init (Input := Input) (ExampleId := ExampleId) models) = Ok s →
  ∀ k v, s !! k = Some v ↔
         ∃ name model, (name, model) ∈ models ∧
           input (model_spec model) !! k = Some v ∧ required v = true.
Proof.
  change (spec (NoneDataset_init models)) with (spec_loop models ∅).
  intros Hs k v.
  rewrite (spec_loop_Ok _ _ _ Hs k v), lookup_empty. unfold declared.
  setoid_rewrite req_inputs_Some. split.
  - intros [?|(n & m & ? & ? & ?)]; [done|]. by exists n, m.
  - intros (n & m & ? & ? & ?). right. by exists n, m.
Qed.

End more_schema.

Section more_derivations.
Context {Input ExampleId LitType : Type}.
Context `{ExampleId_countable : Countable ExampleId}.
Context `{LitType_eq : EqDecision LitType}.
Context `{LitType_required : Required LitType}.
Context `{rng : RandomSample Input}.
Abbreviation Spec := (gmap string LitType).
Abbreviation Dataset := (Dataset (Input := Input) (ExampleId := ExampleId) (LitType := LitType)).

(** X6. The constructor reads the schema of its base before it looks at
    its arguments: with a base it returns exactly when [base.spec()]
    returns, also when a schema is given, and otherwise raises the
    assertion error; without a base it always returns. *)
Theorem Dataset_init_returns_iff
    (sp : option Spec) (ex : option (list Input)) (de : option string)
    (base : option Dataset) :
  (returns (Dataset_init sp ex de base) ↔ ∀ b, base = Some b → returns (spec b)) ∧
  (returns (Dataset_init sp ex de base) ∨
   Dataset_init sp ex de base = Raise AssertionError).
Proof.
  unfold Dataset_init. destruct base as [b|]; simpl.
  - destruct (spec b) as [sb|e] eqn:Hb; simpl.
    + split; [|left; by eexists]. split; [|by eexists].
      intros _ b' [= <-]. rewrite Hb. by eexists.
    + split; [|right; by rewrite (spec_Raise _ _ Hb)]. split.
      * by intros [d' ?].
      * intros Hall. destruct (Hall b eq_refl) as [sb Hsb]. congruence.
  - split; [|left; by eexists]. split; [done|]. by eexists.
Qed.

(** X7. Arguments that are not empty win over the base: built with a
    non-empty schema, a non-empty list of examples and a non-empty
    description, the dataset has exactly these; the base and
    [can_load_by_path] come from the base. *)
Theorem Dataset_init_overrides
    (sp s : Spec) (ex : list Input) (de : string) (b : Dataset) :
  spec b = Ok s →
  sp ≠ ∅ → ex ≠ [] → de ≠ EmptyString →
  ∃ d', Dataset_init (Some sp) (Some ex) (Some de) (Some b) = Ok d' ∧
        spec d' = Ok sp ∧ examples d' = ex ∧ description d' = de ∧
        _base d' = Some b ∧ can_load_by_path d' = can_load_by_path b.
Proof.
  intros Hs Hsp Hex Hde.
  assert (or_dict (Some sp) s = sp) as Hd.
  { unfold or_dict. case_decide as Hz; [|done].
    by apply map_size_empty_iff in Hz. }
  assert (or_list (Some ex) (examples b) = ex) as He by by destruct ex.
  assert (or_str (Some de) (Some (description b)) = Some de) as Hs'
    by by destruct de.
  exists (mkDataset ClsDataset sp ex (Some de) (Some b) (can_load_by_path b)).
  split.
  - unfold Dataset_init. rewrite Hs. cbn [mbind result_bind]. by rewrite Hd, He, Hs'.
  - repeat split. unfold description. simpl. by destruct de.
Qed.

(** X8. The description of a dataset of this module is never empty: it is
    the description given, when that is not empty, and the docstring of
    the class of the instance otherwise. For an instance of a subclass it
    is empty exactly when no description is given and the subclass has no
    docstring. *)
Theorem description_cases (d : Dataset) :
  (of_module (cls d) → description d ≠ EmptyString) ∧
  (∀ s, _description d = Some s → s ≠ EmptyString → description d = s) ∧
  ((_description d = None ∨ _description d = Some EmptyString) →
   description d = default EmptyString (getdoc (cls d))) ∧
  ((_description d = None ∨ _description d = Some EmptyString) →
   documented (cls d) → Some (description d) = getdoc (cls d)) ∧
  (description d = EmptyString ↔
   (_description d = None ∨ _description d = Some EmptyString) ∧
   (getdoc (cls d) = None ∨ getdoc (cls d) = Some EmptyString)).
Proof.
  assert ((_description d = None ∨ _description d = Some EmptyString) →
          description d = default EmptyString (getdoc (cls d))) as Hfall.
  { intros [Hd|Hd]; unfold description; rewrite Hd; simpl;
      by destruct (getdoc (cls d)) as [[|a s]|]. }
  split; [|split; [|split; [|split]]].
  - intros Hc. by apply description_nonempty, of_module_documented.
  - intros s Hd Hs. unfold description. rewrite Hd. by destruct s.
  - done.
  - intros Hd (doc & Hdoc & _). rewrite (Hfall Hd), Hdoc. done.
  - split.
    + intros He. destruct (_description d) as [[|a s]|] eqn:Hd.
      * split; [by right|]. rewrite Hfall in He by by right.
        destruct (getdoc (cls d)) as [[|a s]|]; simpl in He; auto. done.
      * exfalso. unfold description in He. rewrite Hd in He. done.
      * split; [by left|]. rewrite Hfall in He by by left.
        destruct (getdoc (cls d)) as [[|a s]|]; simpl in He; auto. done.
    + intros [Hd [Hdoc|Hdoc]]; by rewrite (Hfall Hd), Hdoc.
Qed.

(** X9. Slicing fails only on a zero step: with a step of 0 the slice
    raises [ValueError], and with any other slice object it returns. *)
Theorem slice_returns_iff (d : Dataset) (s : Spec) (slice_obj : SliceObj) :
  spec d = Ok s →
  (slice_step slice_obj = Some 0 → slice d slice_obj = Raise ValueError) ∧
  (slice_step slice_obj ≠ Some 0 → returns (slice d slice_obj)).
Proof.
  intros Hs. unfold slice, list_getitem, slice_indices. split.
  - intros ->. done.
  - intros Hstep.
    destruct (default 1 (slice_step slice_obj) =? 0) eqn:E.
    + exfalso. apply Hstep. destruct (slice_step slice_obj) as [z|]; simpl in E.
      * f_equal. lia.
      * done.
    + simpl. rewrite (Dataset_init_derive _ _ _ Hs). by eexists.
Qed.

Lemma list_getitem_elem_of {A : Type} (l ex : list A) (slice_obj : SliceObj) :
  list_getitem l slice_obj = Ok ex → ∀ x, x ∈ ex → x ∈ l.
Proof.
  unfold list_getitem. destruct (slice_indices _ _) as [[[start step] n]|e];
    simpl; [|done].
  intros [= <-] x Hx. apply list_elem_of_omap in Hx as (i & _ & Hi).
  by eapply list_elem_of_lookup_2.
Qed.

(** X10. A slice holds only records of the dataset: every example of
    [d.slice[...]] is an example of [d], the base of the slice is [d],
    and the slice is a plain [Dataset], whatever the class of [d]. *)
Theorem slice_elem_of (d d' : Dataset) (slice_obj : SliceObj) :
  slice d slice_obj = Ok d' →
  (∀ r, r ∈ examples d' → r ∈ examples d) ∧
  _base d' = Some d ∧ cls d' = ClsDataset.
Proof.
  unfold slice. destruct (list_getitem (examples d) slice_obj) as [ex|e] eqn:Hex;
    simpl; [|done].
  unfold Dataset_init. destruct (spec d) as [s|e]; simpl; [|done].
  intros [= <-]. repeat split. simpl. intros r Hr.
  destruct ex as [|x ex]; simpl in Hr; [done|].
  by apply (list_getitem_elem_of _ _ _ Hex).
Qed.

Lemma list_getitem_all {A : Type} (l : list A) :
  list_getitem l (Slice None None None) = Ok l.
Proof.
  unfold list_getitem, slice_indices. simpl.
  destruct (0 <? Z.of_nat (length l)) eqn:E.
  - rewrite Z.div_1_r.
    replace (Z.of_nat (length l) - 0 - 1 + 1) with (Z.of_nat (length l)) by lia.
    f_equal. etrans; [apply (omap_lookup_run l 0 (length l)); simpl; lia|].
    by rewrite drop_0, firstn_all.
  - destruct l; [done|]. apply Z.ltb_ge in E. rewrite length_cons in E. exfalso. lia.
Qed.

(** X11. The full slice [d.slice[:]] holds the examples of [d], in their
    order. *)
Theorem slice_all (d : Dataset) (s : Spec) :
  spec d = Ok s →
  ∃ d', slice d (Slice None None None) = Ok d' ∧ examples d' = examples d ∧
        _base d' = Some d.
Proof.
  intros Hs.
  destruct (slice_Ok d s _ _ Hs (list_getitem_all (examples d)))
    as (d' & Hd' & He & Hb).
  exists d'. repeat split; try done. rewrite He. apply or_list_self.
Qed.

(** X12. A slice with bounds [0 <= a < b <= len(d)] holds the [b - a]
    examples of [d] from position [a] on, in their order. *)
Theorem slice_in_range (d : Dataset) (s : Spec) (a b : nat) :
  spec d = Ok s →
  (a < b ≤ length (examples d))%nat →
  ∃ d', slice d (slice_ab (Z.of_nat a) (Z.of_nat b)) = Ok d' ∧
        examples d' = take (b - a) (drop a (examples d)) ∧
        length (examples d') = (b - a)%nat ∧
        _base d' = Some d.
Proof.
  intros Hs Hab.
  assert (length (take (b - a) (drop a (examples d))) = (b - a)%nat) as Hlen.
  { rewrite length_take, length_drop. lia. }
  destruct (slice_nonempty d s (slice_ab (Z.of_nat a) (Z.of_nat b))
              (take (b - a) (drop a (examples d))) Hs)
    as (d' & Hd' & He & Hb).
  - apply list_getitem_ab. lia.
  - intros Hnil. rewrite Hnil in Hlen. simpl in Hlen. lia.
  - exists d'. by rewrite He.
Qed.

(** X13. A negative sample size raises [ValueError], for every dataset,
    generator and seed. *)
Theorem sample_negative (d : Dataset) (n seed : Z) :
  n < 0 → sample d n seed = Raise ValueError.
Proof.
  intros Hn. unfold sample.
  assert ((n <? Z.of_nat (length (examples d))) = true) as ->
    by (apply Z.ltb_lt; lia).
  by assert ((n <? 0) = true) as -> by (apply Z.ltb_lt; lia).
Qed.

(** X14. A sample never invents or repeats a record: for [n >= 0] the
    examples of [d.sample(n, seed)] are, as a multiset, contained in the
    examples of [d], and the base of the sample is [d]. *)
Theorem sample_submseteq (d : Dataset) (s : Spec) (n seed : Z) :
  spec d = Ok s →
  0 ≤ n →
  ∃ d', sample d n seed = Ok d' ∧ examples d' ⊆+ examples d ∧
        _base d' = Some d.
Proof.
  intros Hs Hn.
  destruct (sample_Ok d s n seed Hs Hn) as (d' & Hd' & Hb & He).
  exists d'. split; [done|]. split; [|done]. rewrite He.
  destruct (n <? Z.of_nat (length (examples d))) eqn:Hlt; [|by rewrite or_list_self].
  pose proof (rng_sample_submseteq seed (examples d) (Z.to_nat n)) as Hsub.
  destruct (rng_sample seed (examples d) (Z.to_nat n)) as [|x l]; [done|].
  apply Hsub. lia.
Qed.

(** X15. For [0 < n < len(d)] the sample is the draw of the generator: the
    examples of [d.sample(n, seed)] are [rng.sample(d.examples, n)], and
    there are [n] of them. *)
Theorem sample_is_draw (d : Dataset) (s : Spec) (n seed : Z) :
  spec d = Ok s →
  0 < n < len d →
  ∃ d', sample d n seed = Ok d' ∧
        examples d' = rng_sample seed (examples d) (Z.to_nat n) ∧
        Z.of_nat (length (examples d')) = n.
Proof.
  intros Hs Hn. unfold len in Hn.
  destruct (sample_Ok d s n seed Hs) as (d' & Hd' & Hb & He); [lia|].
  exists d'. split; [done|]. rewrite He.
  assert ((n <? Z.of_nat (length (examples d))) = true) as -> by lia.
  pose proof (rng_sample_length seed (examples d) (Z.to_nat n)) as Hl.
  destruct (rng_sample seed (examples d) (Z.to_nat n)) as [|x l] eqn:E.
  - simpl in Hl. lia.
  - simpl or_list. split; [done|]. rewrite Hl; lia.
Qed.

End more_derivations.

Section more_index.
Context {Input ExampleId LitType : Type}.
Context `{ExampleId_countable : Countable ExampleId}.
Context `{LitType_eq : EqDecision LitType}.
Context `{LitType_required : Required LitType}.
Abbreviation Spec := (gmap string LitType).
Abbreviation Dataset := (Dataset (Input := Input) (ExampleId := ExampleId) (LitType := LitType)).

(** X16. The indexed examples of an IndexedDataset are its examples, one
    for one and in order, each with the id the identity function gives it
    and an empty [meta]. *)
Theorem indexed_examples_data
    (sp : option Spec) (ex : option (list Input)) (de : option string)
    (base : option Dataset) (id_fn : Input → ExampleId) (ds : Dataset) :
  IndexedDataset_init sp ex de base (Some id_fn) = Ok ds →
  data <$> indexed_examples ds = examples ds ∧
  id <$> indexed_examples ds = id_fn <$> examples ds ∧
  Forall (λ e, meta e = ∅) (indexed_examples ds).
Proof.
  intros Hds. destruct (IndexedDataset_init_Ok _ _ _ _ _ _ Hds) as [_ ->].
  unfold index_inputs. generalize (examples ds). intros l.
  split; [|split].
  - induction l as [|x l IH]; [done|]. simpl. by f_equal.
  - induction l as [|x l IH]; [done|]. simpl. by f_equal.
  - induction l as [|x l IH]; by constructor.
Qed.

Lemma build_index_Some (id_fn : Input → ExampleId) (recs : list Input)
    (k : ExampleId) (e : IndexedInput) :
  build_index (index_inputs id_fn recs) !! k = Some e →
  ∃ r, r ∈ recs ∧ id_fn r = k ∧ e = entry id_fn r.
Proof.
  rewrite build_index_lookup. intros He.
  destruct (last (filter (λ r, id_fn r = k) recs)) as [r|] eqn:E; [|done].
  apply last_Some_elem_of, list_elem_of_filter in E as [Hid Hin].
  exists r. simpl in He. injection He as <-. done.
Qed.

Lemma build_index_is_Some (id_fn : Input → ExampleId) (recs : list Input)
    (r : Input) :
  r ∈ recs →
  ∃ r', r' ∈ recs ∧ id_fn r' = id_fn r ∧
        build_index (index_inputs id_fn recs) !! id_fn r = Some (entry id_fn r').
Proof.
  intros Hin. rewrite build_index_lookup.
  destruct (last (filter (λ r', id_fn r' = id_fn r) recs)) as [r'|] eqn:E.
  - pose proof E as E'.
    apply last_Some_elem_of, list_elem_of_filter in E' as [Hid Hin'].
    by exists r'.
  - exfalso. apply last_None in E.
    assert (r ∈ filter (λ r', id_fn r' = id_fn r) recs) as Hr
      by by apply list_elem_of_filter.
    rewrite E in Hr. by apply elem_of_nil in Hr.
Qed.

(** X17. Every entry of the index is the entry of a record of the
    dataset under its own id: if [index[k]] is [e], then [e] is one of the
    indexed examples, its id is [k], its data is an example of the dataset
    and the identity function maps that example to [k]. *)
Theorem index_entry_sound
    (sp : option Spec) (ex : option (list Input)) (de : option string)
    (base : option Dataset) (id_fn : Input → ExampleId) (ds : Dataset)
    (k : ExampleId) (e : IndexedInput) :
  IndexedDataset_init sp ex de base (Some id_fn) = Ok ds →
  index ds !! k = Some e →
  id e = k ∧ id_fn (data e) = k ∧ data e ∈ examples ds ∧
  e ∈ indexed_examples ds.
Proof.
  intros Hds. destruct (IndexedDataset_init_Ok _ _ _ _ _ _ Hds) as [-> ->].
  intros He. apply build_index_Some in He as (r & Hin & Hid & ->).
  repeat split; try done.
  unfold index_inputs. apply list_elem_of_fmap. by exists r.
Qed.

(** X18. Every example of an IndexedDataset is found by its id: the index
    has an entry for [id_fn(r)], and the record of that entry has the id of
    [r]; and the index has no other keys than the ids of the examples. *)
Theorem index_complete
    (sp : option Spec) (ex : option (list Input)) (de : option string)
    (base : option Dataset) (id_fn : Input → ExampleId) (ds : Dataset) :
  IndexedDataset_init sp ex de base (Some id_fn) = Ok ds →
  (∀ r, r ∈ examples ds →
        ∃ e, index ds !! id_fn r = Some e ∧ id e = id_fn r ∧
             id_fn (data e) = id_fn r) ∧
  (∀ k, is_Some (index ds !! k) ↔ ∃ r, r ∈ examples ds ∧ id_fn r = k).
Proof.
  intros Hds. destruct (IndexedDataset_init_Ok _ _ _ _ _ _ Hds) as [-> _].
  split.
  - intros r Hin.
    destruct (build_index_is_Some id_fn _ r Hin) as (r' & _ & Hid & Hr').
    exists (entry id_fn r'). by rewrite Hr'.
  - intros k. split.
    + intros [e He]. apply build_index_Some in He as (r & Hin & Hid & _).
      by exists r.
    + intros (r & Hin & <-).
      destruct (build_index_is_Some id_fn _ r Hin) as (r' & _ & _ & Hr').
      by eexists.
Qed.

Lemma build_index_size_le (id_fn : Input → ExampleId) (recs : list Input) :
  (size (build_index (index_inputs id_fn recs)) ≤ length recs)%nat ∧
  (size (build_index (index_inputs id_fn recs)) = length recs →
   NoDup (id_fn <$> recs)).
Proof.
  induction recs as [|r recs [IHle IHeq]] using rev_ind.
  - split; [done|]. intros _. constructor.
  - rewrite build_index_snoc, length_app, fmap_app. simpl.
    destruct (build_index (index_inputs id_fn recs) !! id_fn r) as [e|] eqn:E.
    + rewrite map_size_insert_Some by (rewrite E; by eexists). split; [lia|lia].
    + rewrite map_size_insert_None by done. split; [lia|].
      intros Hsize. apply NoDup_app. split; [apply IHeq; lia|]. split.
      * intros k Hk Hk'. apply list_elem_of_singleton in Hk' as ->.
        apply list_elem_of_fmap in Hk as (r' & Hid & Hin).
        destruct (build_index_is_Some id_fn recs r' Hin) as (r2 & _ & _ & Hr2).
        rewrite <- Hid in Hr2. congruence.
      * apply NoDup_singleton.
Qed.

(** X19. The index never has more entries than the dataset has examples,
    and it has as many exactly when no two examples, at different
    positions, have the same id. *)
Theorem index_size
    (sp : option Spec) (ex : option (list Input)) (de : option string)
    (base : option Dataset) (id_fn : Input → ExampleId) (ds : Dataset) :
  IndexedDataset_init sp ex de base (Some id_fn) = Ok ds →
  (size (index ds) ≤ length (examples ds))%nat ∧
  (size (index ds) = length (examples ds) ↔ NoDup (id_fn <$> examples ds)).
Proof.
  intros Hds. destruct (IndexedDataset_init_Ok _ _ _ _ _ _ Hds) as [-> _].
  destruct (build_index_size_le id_fn (examples ds)) as [Hle Heq].
  split; [done|]. split; [done|apply build_index_size].
Qed.

(** X20. [index_single] keeps the dataset: for a dataset whose schema can
    be read it returns an IndexedDataset with the examples and the schema
    of the dataset, the dataset as its base, and the index of its
    examples; its description is that of the dataset when that is not
    empty, and the docstring of [IndexedDataset] when it is. *)
Theorem index_single_keeps (d : Dataset) (s : Spec) (id_fn : Input → ExampleId) :
  spec d = Ok s →
  ∃ ds, index_single d id_fn = Ok ds ∧
        examples ds = examples d ∧ spec ds = Ok s ∧
        (description d ≠ EmptyString → description ds = description d) ∧
        (description d = EmptyString → Some (description ds) = getdoc (cls ds)) ∧
        _base ds = Some d ∧
        indexed_examples ds = index_inputs id_fn (examples d) ∧
        index ds = build_index (index_inputs id_fn (examples d)).
Proof.
  intros Hs. unfold index_single, IndexedDataset_init.
  rewrite (Dataset_init_derive _ _ _ Hs). simpl.
  eexists. split; [done|]. split; [done|]. split; [done|].
  match goal with
  | |- context [description ?ds = description d] =>
      destruct (description_derived ds d eq_refl) as [Hkeep Hdoc]
  end.
  split; [done|]. split; [|done].
  intros He. by rewrite (Hdoc He).
Qed.

(** X21. [index_all] indexes every dataset of the mapping under its name:
    it returns exactly when the schema of every dataset can be read, the
    result has the names of the mapping in their order, and each entry is
    what [index_single] returns for the dataset of that name; otherwise it
    raises the assertion error. *)
Theorem index_all_each (datasets : list (string * Dataset))
    (id_fn : Input → ExampleId) :
  (returns (index_all datasets id_fn) ↔
   Forall (λ item, returns (spec item.2)) datasets) ∧
  (∀ out, index_all datasets id_fn = Ok out →
     out.*1 = datasets.*1 ∧
     Forall2 (λ item o, index_single item.2 id_fn = Ok o.2) datasets out) ∧
  (returns (index_all datasets id_fn) ∨
   index_all datasets id_fn = Raise AssertionError).
Proof.
  unfold index_all, index_single.
  induction datasets as [|[name d] rest (IHret & IHout & IHerr)].
  - split; [|split].
    + split; [constructor|]. intros _. by eexists.
    + intros out [= <-]. split; [done|constructor].
    + left. by eexists.
  - simpl.
    destruct (spec d) as [s|e] eqn:Hs.
    + assert (∃ ds, IndexedDataset_init None None None (Some d) (Some id_fn)
                    = Ok ds) as [ds Hds].
      { unfold IndexedDataset_init. rewrite (Dataset_init_derive _ _ _ Hs).
        by eexists. }
      rewrite Hds. simpl.
      destruct (mapM _ rest) as [outs|e] eqn:Hrest; simpl.
      * split; [|split].
        -- split; [|by eexists]. intros _. constructor.
           ++ simpl. rewrite Hs. by eexists.
           ++ apply IHret. by eexists.
        -- intros out [= <-]. destruct (IHout outs eq_refl) as [Hn Hf].
           split; [simpl; by f_equal|]. by constructor.
        -- left. by eexists.
      * split; [|split].
        -- split; [by intros [? ?]|]. intros Hall.
           apply Forall_cons in Hall as [_ Hall].
           apply IHret in Hall as [? ?]. done.
        -- done.
        -- right. destruct IHerr as [[? ?]|He]; [done|]. by injection He as ->.
    + assert (IndexedDataset_init None None None (Some d) (Some id_fn)
              = Raise AssertionError) as ->.
      { unfold IndexedDataset_init, Dataset_init. rewrite Hs. simpl.
        by rewrite (spec_Raise _ _ Hs). }
      simpl. split; [|split].
      * split; [by intros [? ?]|]. intros Hall.
        apply Forall_cons in Hall as [[? Hd] _]. simpl in Hd. congruence.
      * done.
      * by right.
Qed.




End more_index.

Lemma append_cons (x : Ascii.ascii) (a b : string) :
  String x a +:+ b = String x (a +:+ b).
Proof. reflexivity. Qed.

Lemma append_assoc (a b c : string) : (a +:+ b) +:+ c = a +:+ b +:+ c.
Proof.
  induction a as [|x a IH]; [done|]. rewrite !append_cons. by rewrite IH.
Qed.

Lemma append_nil_r (a : string) : a +:+ "" = a.
Proof.
  induction a as [|x a IH]; [done|]. rewrite append_cons. by rewrite IH.
Qed.

Lemma os_path_join_append (a b c : string) :
  startswith_sep c = false →
  os_path_join a (b +:+ c) = os_path_join a b +:+ c.
Proof.
  intros Hc. unfold os_path_join. destruct b as [|x b].
  - change ("" +:+ c) with c. rewrite Hc. simpl startswith_sep.
    destruct (bool_decide (a = "") || endswith_sep a).
    + by rewrite append_nil_r.
    + by rewrite append_assoc.
  - change (startswith_sep (String x b +:+ c)) with (startswith_sep (String x b)).
    destruct (startswith_sep (String x b)); [done|].
    destruct (bool_decide (a = "") || endswith_sep a).
    + by rewrite append_assoc.
    + by rewrite append_assoc.
Qed.

(** X24. The file [save_additional] writes matches the pattern
    [load_additional] searches, as far as the two names go: the pattern is a
    stem followed by [*.lit.json], and the file is the same stem followed by
    an underscore, the time stamp and [.lit.json]. *)
Theorem lit_format_path_search_path (path dataset_name timestr : string) :
  search_path path dataset_name
  = os_path_join path dataset_name +:+ "*" +:+ ".lit.json" ∧
  lit_format_path path dataset_name timestr
  = os_path_join path dataset_name +:+ ("_" +:+ timestr) +:+ ".lit.json".
Proof.
  split; [done|]. unfold lit_format_path, new_file_path.
  rewrite os_path_join_append by done. by rewrite append_assoc.
Qed.

Section more_remap.
Context {Input ExampleId LitType : Type}.
Context `{ExampleId_countable : Countable ExampleId}.
Context `{LitType_eq : EqDecision LitType}.
Context `{LitType_required : Required LitType}.
Context `{Spec_remap : RemapDict (gmap string LitType)}.
Context `{Input_remap : RemapDict Input}.
Abbreviation Spec := (gmap string LitType).
Abbreviation Dataset := (Dataset (Input := Input) (ExampleId := ExampleId) (LitType := LitType)).

(** X25. [remap] renames every example, one for one and in order, and
    keeps the base; the schema is the renamed schema, unless that is empty,
    in which case the schema of the dataset is kept; the description is
    that of the dataset when that is not empty, and the docstring of
    [Dataset] when it is. *)
Theorem remap_examples (d : Dataset) (s : Spec) (field_map : gmap string string) :
  spec d = Ok s →
  ∃ d', remap d field_map = Ok d' ∧
        examples d' = (λ ex, remap_dict ex field_map) <$> examples d ∧
        length (examples d') = length (examples d) ∧
        spec d' = Ok (if decide (size (remap_dict s field_map) = 0%nat)
                      then s else remap_dict s field_map) ∧
        (description d ≠ EmptyString → description d' = description d) ∧
        (description d = EmptyString → Some (description d') = getdoc (cls d')) ∧
        _base d' = Some d.
Proof.
  intros Hs.
  assert (or_list (Some (map (λ ex, remap_dict ex field_map) (examples d)))
                  (examples d)
          = (λ ex, remap_dict ex field_map) <$> examples d) as He
    by by destruct (examples d).
  exists (mkDataset ClsDataset
            (or_dict (Some (remap_dict s field_map)) s)
            ((λ ex, remap_dict ex field_map) <$> examples d)
            (Some (description d)) (Some d) (can_load_by_path d)).
  split.
  - unfold remap, Dataset_init. rewrite Hs. cbn [mbind result_bind].
    by rewrite He.
  - split; [done|]. split; [apply length_fmap|]. split; [done|].
    match goal with
    | |- context [description ?d' = description d] =>
        destruct (description_derived d' d eq_refl) as [Hkeep Hdoc]
    end.
    split; [done|]. split; [|done].
    intros Hem. by rewrite (Hdoc Hem).
Qed.

End more_remap.

(** ** The properties on the concrete datasets *)

Example lit_format_path_example :
  lit_format_path "/data" "sst" "20200131-120000"
  = "/data/sst_20200131-120000.lit.json" ∧
  search_path "/data/" "sst" = "/data/sst*.lit.json" ∧
  os_path_join "/data" "/tmp/sst" = "/tmp/sst".
Proof. repeat split. Qed.

Example clone_of_slice :
  clone_with_new_path sst_view "/data/sst.tsv" = None ∧ truthy sst = true.
Proof. split; reflexivity. Qed.

Lemma NoneDataset_spec_same_members_witness :
  (∀ x, x ∈ [("A", model_text); ("B", model_label)] ↔
        x ∈ [("B", model_label); ("A", model_text); ("B", model_label)]) ∧
  NoneDataset_spec [("A", model_text); ("B", model_label)]
  = NoneDataset_spec [("B", model_label); ("A", model_text); ("B", model_label)].
Proof.
  assert (∀ x, x ∈ [("A", model_text); ("B", model_label)] ↔
               x ∈ [("B", model_label); ("A", model_text); ("B", model_label)])
    as Hmem by (intros x; rewrite !elem_of_cons, !elem_of_nil; tauto).
  split; [exact Hmem|].
  exact (NoneDataset_spec_same_members _ _ Hmem).
Defined.

Lemma NoneDataset_spec_content_witness :
  spec (NoneDataset_init (Input := Rec) (ExampleId := string)
          [("A", model_text); ("B", model_optional_tokens)])
  = Ok {[ "text" := mkField "TextSegment" true ]} ∧
  ∀ k v, ({[ "text" := mkField "TextSegment" true ]} : gmap string Field) !! k
         = Some v ↔
         ∃ name model,
           (name, model) ∈ [("A", model_text); ("B", model_optional_tokens)] ∧
           input (model_spec model) !! k = Some v ∧ required v = true.
Proof.
  assert (spec (NoneDataset_init (Input := Rec) (ExampleId := string)
                  [("A", model_text); ("B", model_optional_tokens)])
          = Ok {[ "text" := mkField "TextSegment" true ]}) as Hs
    by (vm_compute; reflexivity).
  split; [exact Hs|].
  exact (NoneDataset_spec_content (Input := Rec) (ExampleId := string) _ _ Hs).
Defined.

Lemma Dataset_init_overrides_witness :
  spec sst = Ok (_spec sst) ∧
  ({[ "sentence" := mkField "TextSegment" true ]} : gmap string Field) ≠ ∅ ∧
  [rec3] ≠ [] ∧ "A view." ≠ EmptyString ∧
  ∃ d', Dataset_init (Some {[ "sentence" := mkField "TextSegment" true ]})
                     (Some [rec3]) (Some "A view.") (Some sst) = Ok d' ∧
        spec d' = Ok {[ "sentence" := mkField "TextSegment" true ]} ∧
        examples d' = [rec3] ∧ description d' = "A view." ∧
        _base d' = Some sst ∧ can_load_by_path d' = can_load_by_path sst.
Proof.
  assert (({[ "sentence" := mkField "TextSegment" true ]} : gmap string Field) ≠ ∅)
    as Hsp by apply insert_non_empty.
  assert ([rec3] ≠ []) as Hex by discriminate.
  assert ("A view." ≠ EmptyString) as Hde by discriminate.
  split; [reflexivity|]. split; [exact Hsp|]. split; [exact Hex|].
  split; [exact Hde|].
  exact (Dataset_init_overrides _ (_spec sst) [rec3] "A view." sst eq_refl
           Hsp Hex Hde).
Defined.

Lemma slice_returns_iff_witness :
  spec sst = Ok (_spec sst) ∧
  slice sst (Slice None None (Some 0)) = Raise ValueError ∧
  returns (slice sst (Slice (Some (-1)) None (Some (-1)))).
Proof.
  split; [reflexivity|].
  split.
  - apply (slice_returns_iff sst (_spec sst) (Slice None None (Some 0)) eq_refl).
    reflexivity.
  - apply (slice_returns_iff sst (_spec sst)
             (Slice (Some (-1)) None (Some (-1))) eq_refl).
    discriminate.
Defined.

Lemma slice_elem_of_witness :
  slice sst (slice_ab 1 3) = Ok sst_view ∧
  (∀ r, r ∈ examples sst_view → r ∈ examples sst) ∧
  _base sst_view = Some sst ∧ cls sst_view = ClsDataset.
Proof.
  split; [reflexivity|].
  exact (slice_elem_of sst sst_view (slice_ab 1 3) eq_refl).
Defined.

Lemma slice_all_witness :
  spec sst = Ok (_spec sst) ∧
  ∃ d', slice sst (Slice None None None) = Ok d' ∧ examples d' = examples sst ∧
        _base d' = Some sst.
Proof.
  split; [reflexivity|]. exact (slice_all sst (_spec sst) eq_refl).
Defined.

Lemma slice_in_range_witness :
  spec sst = Ok (_spec sst) ∧
  (1 < 3 ≤ length (examples sst))%nat ∧
  ∃ d', slice sst (slice_ab (Z.of_nat 1) (Z.of_nat 3)) = Ok d' ∧
        examples d' = take (3 - 1) (drop 1 (examples sst)) ∧
        length (examples d') = (3 - 1)%nat ∧
        _base d' = Some sst.
Proof.
  assert (1 < 3 ≤ length (examples sst))%nat as Hab by (simpl; lia).
  split; [reflexivity|]. split; [exact Hab|].
  exact (slice_in_range sst (_spec sst) 1 3 eq_refl Hab).
Defined.

Lemma sample_negative_witness :
  -1 < 0 ∧
  sample (rng := rotate_RandomSample Rec) sst (-1) 42 = Raise ValueError.
Proof.
  assert (-1 < 0) as Hn by lia.
  split; [exact Hn|].
  exact (sample_negative (rng := rotate_RandomSample Rec) sst (-1) 42 Hn).
Defined.

Lemma sample_submseteq_witness :
  spec sst = Ok (_spec sst) ∧ 0 ≤ 2 ∧
  ∃ d', sample (rng := rotate_RandomSample Rec) sst 2 42 = Ok d' ∧
        examples d' ⊆+ examples sst ∧ _base d' = Some sst.
Proof.
  assert (0 ≤ 2) as Hn by lia.
  split; [reflexivity|]. split; [exact Hn|].
  exact (sample_submseteq (rng := rotate_RandomSample Rec) sst (_spec sst) 2 42
           eq_refl Hn).
Defined.

Lemma sample_is_draw_witness :
  spec sst = Ok (_spec sst) ∧ 0 < 2 < len sst ∧
  ∃ d', sample (rng := rotate_RandomSample Rec) sst 2 42 = Ok d' ∧
        examples d' = rotate_sample 42 (examples sst) (Z.to_nat 2) ∧
        Z.of_nat (length (examples d')) = 2.
Proof.
  assert (0 < 2 < len sst) as Hn by (unfold len; simpl; lia).
  split; [reflexivity|]. split; [exact Hn|].
  exact (sample_is_draw (rng := rotate_RandomSample Rec) sst (_spec sst) 2 42
           eq_refl Hn).
Defined.

Lemma indexed_examples_data_witness :
  IndexedDataset_init None None None (Some sst) (Some text_id) = Ok indexed_sst ∧
  data <$> indexed_examples indexed_sst = examples indexed_sst ∧
  id <$> indexed_examples indexed_sst = text_id <$> examples indexed_sst ∧
  Forall (λ e, meta e = ∅) (indexed_examples indexed_sst).
Proof.
  split; [reflexivity|].
  exact (indexed_examples_data None None None (Some sst) text_id indexed_sst
           eq_refl).
Defined.

Lemma index_entry_sound_witness :
  IndexedDataset_init None None None (Some sst) (Some same_id) = Ok one_id_sst ∧
  index one_id_sst !! "x" = Some (entry same_id rec3) ∧
  id (entry same_id rec3) = "x" ∧ same_id (data (entry same_id rec3)) = "x" ∧
  data (entry same_id rec3) ∈ examples one_id_sst ∧
  entry same_id rec3 ∈ indexed_examples one_id_sst.
Proof.
  assert (index one_id_sst !! "x" = Some (entry same_id rec3)) as He
    by reflexivity.
  split; [reflexivity|]. split; [exact He|].
  exact (index_entry_sound None None None (Some sst) same_id one_id_sst "x"
           (entry same_id rec3) eq_refl He).
Defined.

Lemma index_complete_witness :
  IndexedDataset_init None None None (Some sst) (Some same_id) = Ok one_id_sst ∧
  (∀ r, r ∈ examples one_id_sst →
        ∃ e, index one_id_sst !! same_id r = Some e ∧ id e = same_id r ∧
             same_id (data e) = same_id r) ∧
  (∀ k, is_Some (index one_id_sst !! k) ↔
        ∃ r, r ∈ examples one_id_sst ∧ same_id r = k).
Proof.
  split; [reflexivity|].
  exact (index_complete None None None (Some sst) same_id one_id_sst eq_refl).
Defined.

Lemma index_size_witness :
  IndexedDataset_init None None None (Some sst) (Some same_id) = Ok one_id_sst ∧
  size (index one_id_sst) = 1%nat ∧ length (examples one_id_sst) = 3%nat ∧
  (size (index one_id_sst) ≤ length (examples one_id_sst))%nat ∧
  (size (index one_id_sst) = length (examples one_id_sst) ↔
   NoDup (same_id <$> examples one_id_sst)).
Proof.
  split; [reflexivity|]. split; [reflexivity|]. split; [reflexivity|].
  exact (index_size None None None (Some sst) same_id one_id_sst eq_refl).
Defined.

Lemma index_single_keeps_witness :
  spec sst_view = Ok (_spec sst) ∧
  ∃ ds, index_single sst_view text_id = Ok ds ∧
        examples ds = examples sst_view ∧ spec ds = Ok (_spec sst) ∧
        (description sst_view ≠ EmptyString →
         description ds = description sst_view) ∧
        (description sst_view = EmptyString →
         Some (description ds) = getdoc (cls ds)) ∧
        _base ds = Some sst_view ∧
        indexed_examples ds = index_inputs text_id (examples sst_view) ∧
        index ds = build_index (index_inputs text_id (examples sst_view)).
Proof.
  split; [reflexivity|].
  exact (index_single_keeps sst_view (_spec sst) text_id eq_refl).
Defined.

Lemma remap_examples_witness :
  spec sst = Ok (_spec sst) ∧
  ∃ d', remap sst {[ "text" := "sentence" ]} = Ok d' ∧
        examples d' = (λ ex, remap_dict ex {[ "text" := "sentence" ]}) <$> examples sst ∧
        length (examples d') = length (examples sst) ∧
        spec d' = Ok (if decide (size (remap_dict (_spec sst) {[ "text" := "sentence" ]}) = 0%nat)
                      then _spec sst
                      else remap_dict (_spec sst) {[ "text" := "sentence" ]}) ∧
        (description sst ≠ EmptyString → description d' = description sst) ∧
        (description sst = EmptyString → Some (description d') = getdoc (cls d')) ∧
        _base d' = Some sst.
Proof.
  split; [reflexivity|].
  exact (remap_examples sst (_spec sst) {[ "text" := "sentence" ]} eq_refl).
Defined.

Example remap_renames :
  (λ d, (examples d, map_to_list (_spec d))) <$>
    (match remap sst {[ "text" := "sentence" ]} with Ok d => Some d | Raise _ => None end)
  = Some ([[("sentence", "a film"); ("label", "1")];
           [("sentence", "a bore"); ("label", "0")];
           [("sentence", "a gem"); ("label", "1")]],
          map_to_list ({[ "sentence" := mkField "TextSegment" true;
                          "label" := mkField "CategoryLabel" false ]} : gmap string Field)).
Proof. vm_compute. reflexivity. Qed.
